(** * WebsiteCloner: a shallow embedding of the site mirroring engine

    The development follows [src/WebsiteCloner.js] (the class
    [WebsiteCloner] required by [bin/cli.js]).  Pure helpers
    ([getFilename], [guessExtension], [isInternalLink], the regular
    expressions of the asset pipeline) are Rocq functions on strings.
    The crawl itself is written in a small state-and-exception monad
    over the crawl state ([visitedUrls], [downloadedAssets], [assetMap])
    extended with a log of the requests issued and the files written.
    Everything the program obtains from its platform (HTTP responses,
    the clock, the file system, URL parsing, the HTML parser) is a field
    of the class [World]; the theorems hold for every world.

    Strings are sequences of 8-bit code units. *)

From stdpp Require Import gmap strings list fin_maps pretty.

From Stdlib Require Import ZArith Ascii.

Local Open Scope Z_scope.

(** ** JavaScript string primitives *)

Module Js.

Definition chars (s : string) : list ascii := String.list_ascii_of_string s.
Definition of_chars (l : list ascii) : string := String.string_of_list_ascii l.

(** [s.startsWith(p)] *)
Definition startsWith (s p : string) : bool := String.prefix p s.

(** [s.endsWith(p)] *)
Definition endsWith (s p : string) : bool :=
  String.prefix (String.rev p) (String.rev s).

(** [s.includes(c)] for a one-character needle. *)
Fixpoint includes_char (s : string) (c : ascii) : bool :=
  match s with
  | EmptyString => false
  | String a s' => if Ascii.eqb a c then true else includes_char s' c
  end.

(** [s.substring(1)] *)
Definition substring1 (s : string) : string :=
  match s with
  | EmptyString => EmptyString
  | String _ s' => s'
  end.

(** [s.slice(i, j)] for [0 <= i] and [0 <= j]. *)
Definition slice (s : string) (i j : Z) : string :=
  String.substring (Z.to_nat i) (Z.to_nat (j - i)) s.

(** [s.split(c)[0]]: the part of [s] before the first [c]. *)
Fixpoint split_head (s : string) (c : ascii) : string :=
  match s with
  | EmptyString => EmptyString
  | String a s' => if Ascii.eqb a c then EmptyString else String a (split_head s' c)
  end.

(** [s.replace(re, slash)] where [re] matches every backslash *)
Fixpoint backslashes_to_slashes (s : string) : string :=
  match s with
  | EmptyString => EmptyString
  | String a s' =>
      String (if Ascii.eqb a "\"%char then "/"%char else a)
             (backslashes_to_slashes s')
  end.

(** The class [\s] of regular expressions, on 8-bit code units: TAB, LF,
    VT, FF, CR, space and the no-break space U+00A0. *)
Definition is_space (c : ascii) : bool :=
  Ascii.is_space c || Ascii.eqb c "160"%char.

(** Truthiness of a string: only the empty string is falsy. *)
Definition truthy (s : string) : bool :=
  match s with EmptyString => false | _ => true end.

End Js.

(** ** The [path] module of the platform (POSIX flavour)

    [extname] and [basename] follow the backward scans of the platform
    library, index for index; [-1] is the marker for not seen yet there and
    here. *)

Module Path.

Record ext_scan := {
  startDot : Z;
  startPart : Z;
  end_ : Z;
  matchedSlash : bool;
  preDotState : Z
}.

Definition ext_init : ext_scan :=
  {| startDot := -1; startPart := 0; end_ := -1;
     matchedSlash := true; preDotState := 0 |}.

(** One pass of [for (i = path.length - 1; i >= 0; --i)]: [rev] holds
    the characters at positions [i], [i-1], ..., [0]. *)
Fixpoint ext_loop (rev : list ascii) (i : Z) (st : ext_scan) : ext_scan :=
  match rev with
  | [] => st
  | c :: rest =>
      if Ascii.eqb c "/"%char then
        if negb (matchedSlash st) then
          {| startDot := startDot st; startPart := i + 1; end_ := end_ st;
             matchedSlash := matchedSlash st; preDotState := preDotState st |}
        else ext_loop rest (i - 1) st
      else
        let st1 :=
          if end_ st =? -1 then
            {| startDot := startDot st; startPart := startPart st;
               end_ := i + 1; matchedSlash := false;
               preDotState := preDotState st |}
          else st in
        let st2 :=
          if Ascii.eqb c "."%char then
            if startDot st1 =? -1 then
              {| startDot := i; startPart := startPart st1; end_ := end_ st1;
                 matchedSlash := matchedSlash st1;
                 preDotState := preDotState st1 |}
            else if negb (preDotState st1 =? 1) then
              {| startDot := startDot st1; startPart := startPart st1;
                 end_ := end_ st1; matchedSlash := matchedSlash st1;
                 preDotState := 1 |}
            else st1
          else if negb (startDot st1 =? -1) then
            {| startDot := startDot st1; startPart := startPart st1;
               end_ := end_ st1; matchedSlash := matchedSlash st1;
               preDotState := -1 |}
          else st1 in
        ext_loop rest (i - 1) st2
  end.

(** [path.extname(p)] *)
Definition extname (p : string) : string :=
  let st := ext_loop (rev (Js.chars p)) (Z.of_nat (String.length p) - 1) ext_init in
  if (startDot st =? -1) || (end_ st =? -1) || (preDotState st =? 0)
     || ((preDotState st =? 1) && (startDot st =? end_ st - 1)
         && (startDot st =? startPart st + 1))
  then EmptyString
  else Js.slice p (startDot st) (end_ st).

Record base_scan := { b_start : Z; b_end : Z; b_matchedSlash : bool }.

Fixpoint base_loop (rev : list ascii) (i : Z) (st : base_scan) : base_scan :=
  match rev with
  | [] => st
  | c :: rest =>
      if Ascii.eqb c "/"%char then
        if negb (b_matchedSlash st) then
          {| b_start := i + 1; b_end := b_end st;
             b_matchedSlash := b_matchedSlash st |}
        else base_loop rest (i - 1) st
      else if b_end st =? -1 then
        base_loop rest (i - 1)
          {| b_start := b_start st; b_end := i + 1; b_matchedSlash := false |}
      else base_loop rest (i - 1) st
  end.

(** [path.basename(p)] (no suffix argument) *)
Definition basename (p : string) : string :=
  let st := base_loop (rev (Js.chars p)) (Z.of_nat (String.length p) - 1)
              {| b_start := 0; b_end := -1; b_matchedSlash := true |} in
  if b_end st =? -1 then EmptyString else Js.slice p (b_start st) (b_end st).

(** The scan of [path.dirname]: [rev] holds the characters at positions
    [i], ..., [1]; the result is [end], or [-1]. *)
Fixpoint dir_loop (rev : list ascii) (i : Z) (matched : bool) : Z :=
  match rev with
  | [] => -1
  | c :: rest =>
      if Ascii.eqb c "/"%char then
        if negb matched then i else dir_loop rest (i - 1) matched
      else dir_loop rest (i - 1) false
  end.

(** [path.dirname(p)] *)
Definition dirname (p : string) : string :=
  match Js.chars p with
  | [] => "."
  | c0 :: tl =>
      let hasRoot := Ascii.eqb c0 "/"%char in
      let e := dir_loop (rev tl) (Z.of_nat (String.length p) - 1) true in
      if e =? -1 then (if hasRoot then "/" else ".")
      else if hasRoot && (e =? 1) then "//"
      else Js.slice p 0 e
  end.

(** Segments of a path: the pieces between separators. *)
Fixpoint split_go (cur : list ascii) (s : list ascii) : list string :=
  match s with
  | [] => [Js.of_chars (rev cur)]
  | c :: s' =>
      if Ascii.eqb c "/"%char then Js.of_chars (rev cur) :: split_go [] s'
      else split_go (c :: cur) s'
  end.

Definition segments (p : string) : list string := split_go [] (Js.chars p).

(** [normalizeString]: drop empty and [.] segments, let [..] cancel the
    segment before it; above the start, [..] is kept only when
    [allowAboveRoot].  [acc] is the result so far, last segment first. *)
Fixpoint normalize_segs (allowAboveRoot : bool) (acc : list string)
    (segs : list string) : list string :=
  match segs with
  | [] => rev acc
  | s :: segs' =>
      if decide (s = EmptyString ∨ s = ".") then normalize_segs allowAboveRoot acc segs'
      else if decide (s = "..") then
        match acc with
        | t :: acc' =>
            if decide (t = "..") then normalize_segs allowAboveRoot (s :: acc) segs'
            else normalize_segs allowAboveRoot acc' segs'
        | [] =>
            if allowAboveRoot then normalize_segs allowAboveRoot [s] segs'
            else normalize_segs allowAboveRoot [] segs'
        end
      else normalize_segs allowAboveRoot (s :: acc) segs'
  end.

Fixpoint unsegments (segs : list string) : string :=
  match segs with
  | [] => EmptyString
  | [s] => s
  | s :: rest => s +:+ "/" +:+ unsegments rest
  end.

(** [path.normalize(p)] *)
Definition normalize (p : string) : string :=
  if decide (p = EmptyString) then "."
  else
    let isAbsolute := Js.startsWith p "/" in
    let trailingSeparator := Js.endsWith p "/" in
    let body := unsegments (normalize_segs (negb isAbsolute) [] (segments p)) in
    if decide (body = EmptyString) then
      if isAbsolute then "/" else if trailingSeparator then "./" else "."
    else
      let body' := if trailingSeparator then body +:+ "/" else body in
      if isAbsolute then "/" +:+ body' else body'.

(** [path.join(...args)] *)
Definition join (args : list string) : string :=
  match filter (λ a, a ≠ EmptyString) args with
  | [] => "."
  | parts => normalize (unsegments parts)
  end.

(** [path.resolve(p)] for the working directory [cwd] (an absolute path). *)
Definition resolve (cwd p : string) : list string :=
  if Js.startsWith p "/" then normalize_segs false [] (segments p)
  else normalize_segs false [] (segments cwd ++ segments p).

Fixpoint strip_common (a b : list string) : list string * list string :=
  match a, b with
  | x :: a', y :: b' => if decide (x = y) then strip_common a' b' else (a, b)
  | _, _ => (a, b)
  end.

(** [path.relative(from, to)] *)
Definition relative (cwd from to : string) : string :=
  let '(up, down) := strip_common (resolve cwd from) (resolve cwd to) in
  unsegments (((λ _, "..") <$> up) ++ down).

End Path.

(** ** The platform *)

(** The three fields of a parsed [URL] object the program reads. *)
Record URL := { href : string; hostname : string; pathname : string }.

(** A response of the HTTP client: the body and the [content-type] header
    ([None] when the header is absent). *)
Record Response := { data : string; content_type : option string }.

(** ** Document model

    A parsed page is the sequence of its elements in document order; an
    element handle ([el] in the source) is its position.  Tag and attribute
    names are as the HTML parser delivers them (lower case). *)

Record Element := { tag : string; attrs : list (string * string) }.

Definition Document := list Element.

(** [$(el).attr(name)]: [None] stands for [undefined]. *)
Fixpoint attr_lookup (l : list (string * string)) (name : string) : option string :=
  match l with
  | [] => None
  | (k, v) :: l' => if decide (k = name) then Some v else attr_lookup l' name
  end.

Definition get_attr (el : Element) (name : string) : option string :=
  attr_lookup (attrs el) name.

Fixpoint attr_update (l : list (string * string)) (name v : string)
    : list (string * string) :=
  match l with
  | [] => [(name, v)]
  | (k, w) :: l' =>
      if decide (k = name) then (k, v) :: l' else (k, w) :: attr_update l' name v
  end.

(** [$(el).attr(name, v)] on the element at position [i]. *)
Definition set_attr (doc : Document) (i : nat) (name v : string) : Document :=
  match doc !! i with
  | Some el => <[i := {| tag := tag el; attrs := attr_update (attrs el) name v |}]> doc
  | None => doc
  end.

(** The elements of [doc] that satisfy a selector, with their handles, in
    document order. *)
Definition select (sel : Element → bool) (doc : Document) : list (nat * Element) :=
  filter (λ p, sel p.2 = true) (imap (λ i el, (i, el)) doc).

Class World := {
  (** [new URL(input)] and [new URL(input, base)]; [None] is the
      [TypeError] of an unparsable input. *)
  URL_new : string → option string → option URL;
  (** [client.get(url)] issued as the [t]-th effect of the run; [None] is
      a rejected promise (timeout, DNS, status outside 2xx, transport). *)
  http_get : nat → string → option Response;
  (** [Date.now()] *)
  Date_now : nat → N;
  (** whether [fs.ensureDir(dir)] succeeds *)
  fs_ensureDir_ok : nat → string → bool;
  (** whether [fs.writeFile(file, _)] succeeds *)
  fs_writeFile_ok : nat → string → bool;
  (** [cheerio.load(html)]; [None] when it throws *)
  cheerio_load : string → option Document;
  (** [$.html()] *)
  cheerio_html : Document → string;
  (** [process.cwd()], against which [path.relative] resolves *)
  process_cwd : string
}.

(** ** Regular expressions of the asset pipeline *)

Module Regex.

Fixpoint strip_prefix (p s : list ascii) : option (list ascii) :=
  match p, s with
  | [], _ => Some s
  | a :: p', b :: s' => if Ascii.eqb a b then strip_prefix p' s' else None
  | _ :: _, [] => None
  end.

(** [\s*] *)
Fixpoint skip_spaces (s : list ascii) : list ascii :=
  match s with
  | c :: s' => if Js.is_space c then skip_spaces s' else s
  | [] => []
  end.

Definition is_quote (c : ascii) : bool :=
  Ascii.eqb c "039"%char || Ascii.eqb c "034"%char.

(** an optional quote character (single or double) *)
Definition opt_quote (s : list ascii) : list ascii :=
  match s with
  | c :: s' => if is_quote c then s' else s
  | [] => []
  end.

(** the negated class of the pattern: any character that is not a
    quote, a closing parenthesis or a space *)
Definition in_class (c : ascii) : bool :=
  negb (is_quote c || Ascii.eqb c ")"%char || Js.is_space c).

(** one or more characters of the class, greedy: the run taken and what
    follows it *)
Fixpoint take_class (s : list ascii) : list ascii * list ascii :=
  match s with
  | c :: s' =>
      if in_class c then let '(run, rest) := take_class s' in (c :: run, rest)
      else ([], s)
  | [] => ([], [])
  end.

(** The pattern of [processAssets], anchored at the head of [s]: the
    literal [background-image:], spaces, the literal [url(], an optional
    quote, the captured run of class characters, an optional quote and a
    closing parenthesis.  The result is the capture and the text after
    the match.
    No character of the class is a quote or a closing parenthesis, and [u]
    is not a space, so the greedy choices are the only ones that can
    succeed and no backtracking is needed. *)
Definition match_here (s : list ascii) : option (list ascii * list ascii) :=
  s1 ← strip_prefix (Js.chars "background-image:") s;
  s3 ← strip_prefix (Js.chars "url(") (skip_spaces s1);
  let '(cap, s5) := take_class (opt_quote s3) in
  match cap with
  | [] => None
  | _ => s7 ← strip_prefix [")"%char] (opt_quote s5); Some (cap, s7)
  end.

Record found := { before : string; matched : string; capture : string; after : string }.

(** Leftmost match: the text before it ([acc], reversed), the capture
    and the text after it. *)
Fixpoint search (acc : list ascii) (s : list ascii) : option found :=
  match match_here s with
  | Some (cap, rest) =>
      Some {| before := Js.of_chars (rev acc);
              matched := Js.of_chars (take (length s - length rest)%nat s);
              capture := Js.of_chars cap;
              after := Js.of_chars rest |}
  | None =>
      match s with
      | [] => None
      | c :: s' => search (c :: acc) s'
      end
  end.

(** [style.match(re)] for the pattern above *)
Definition bgImageMatch (style : string) : option found :=
  search [] (Js.chars style).

(** Expansion of a replacement template of [String.prototype.replace]
    for a pattern without capture groups: [$$] is a dollar, [$&] the
    match, dollar-backquote the text before it, dollar-quote the text
    after it; any other
    dollar (also [$1], there being no group) stands for itself. *)
Fixpoint expand (template : list ascii) (m : found) : string :=
  match template with
  | [] => EmptyString
  | c :: t =>
      if Ascii.eqb c "$"%char then
        match t with
        | d :: t' =>
            if Ascii.eqb d "$"%char then String "$"%char (expand t' m)
            else if Ascii.eqb d "&"%char then matched m +:+ expand t' m
            else if Ascii.eqb d "`"%char then before m +:+ expand t' m
            else if Ascii.eqb d "'"%char then after m +:+ expand t' m
            else String c (expand t m)
        | [] => String c EmptyString
        end
      else String c (expand t m)
  end.

(** [style.replace(re, template)] for the same pattern without its
    group: the first match is replaced, a string without a match is
    returned as it is. *)
Definition replace_bgImage (style template : string) : string :=
  match bgImageMatch style with
  | Some m => before m +:+ expand (Js.chars template) m +:+ after m
  | None => style
  end.

(** [s.includes(sub)], the test behind an attribute selector with [*=] *)
Fixpoint includes_go (sub s : list ascii) : bool :=
  match strip_prefix sub s with
  | Some _ => true
  | None => match s with [] => false | _ :: s' => includes_go sub s' end
  end.

Definition includes (s sub : string) : bool :=
  includes_go (Js.chars sub) (Js.chars s).

End Regex.

(** ** Values and exceptions *)

(** Result of a computation that may throw. *)
Inductive outcome (A : Type) : Type :=
  | Ok (a : A)
  | Throw (e : string).

Arguments Ok {A} a.

Arguments Throw {A} e.

(** The values the expression [mimeToExt[key]] can produce when it is not
    [undefined]: a string of the table, or a member that the object
    literal inherits from [Object.prototype], named by its key. *)
Inductive JsValue : Type :=
  | JsStr (s : string)
  | JsProtoMember (name : string).

(** Keys that every object literal answers through its prototype. *)
Definition Object_prototype_keys : list string :=
  ["constructor"; "__defineGetter__"; "__defineSetter__"; "hasOwnProperty";
   "__lookupGetter__"; "__lookupSetter__"; "isPrototypeOf";
   "propertyIsEnumerable"; "toString"; "valueOf"; "__proto__";
   "toLocaleString"].

(** [obj[key]] for an object literal with the own properties [own];
    [None] is [undefined]. *)
Definition get_property (own : gmap string string) (key : string) : option JsValue :=
  match own !! key with
  | Some v => Some (JsStr v)
  | None =>
      if bool_decide (key ∈ Object_prototype_keys) then Some (JsProtoMember key)
      else None
  end.

(** Conversion to string, as string concatenation performs it: a built-in
    function prints as its source placeholder, the prototype object as
    [[object Object]]. *)
Definition js_to_string (v : JsValue) : string :=
  match v with
  | JsStr s => s
  | JsProtoMember name =>
      if decide (name = "__proto__") then "[object Object]"
      else "function " +:+ (if decide (name = "constructor") then "Object" else name)
             +:+ "() { [native code] }"
  end.

Definition js_truthy (v : JsValue) : bool :=
  match v with
  | JsStr s => Js.truthy s
  | JsProtoMember _ => true
  end.

(** [a || b] *)
Definition js_or (a b : JsValue) : JsValue := if js_truthy a then a else b.

(** ** Configuration *)

(** The [options] object handed to the constructor; [None] is an absent
    field (for [opt_maxDepth] also [NaN], what [parseInt] yields for a
    non-numeric argument). *)
Record Options := {
  opt_url : string;
  opt_outputDir : option string;
  opt_maxDepth : option Z;
  opt_downloadAssets : option bool
}.

(** The fields of [this] that stay fixed during a crawl. *)
Record Cloner := {
  this_url : string;
  outputDir : string;
  maxDepth : Z;
  downloadAssets : bool;
  baseUrl : URL
}.

(** An entry of the [assets] array of [processAssets]. *)
Record Asset := {
  element : nat;
  attr : string;
  url : string;
  type : string;
  isStyleAttribute : bool;
  originalStyle : string
}.

Definition mimeToExt : gmap string string :=
  list_to_map
    [("text/css", ".css"); ("application/javascript", ".js");
     ("text/javascript", ".js"); ("image/jpeg", ".jpg"); ("image/png", ".png");
     ("image/gif", ".gif"); ("image/svg+xml", ".svg"); ("image/webp", ".webp")].

(** [guessExtension(contentType)]: the empty string for an absent or empty
    header, otherwise [mimeToExt[contentType.split(';')[0]] || ''], a
    property lookup on the object literal. *)
Definition guessExtension (contentType : option string) : JsValue :=
  match contentType with
  | None => JsStr EmptyString
  | Some ct =>
      if negb (Js.truthy ct) then JsStr EmptyString
      else
        match get_property mimeToExt (Js.split_head ct ";"%char) with
        | Some v => js_or v (JsStr EmptyString)
        | None => JsStr EmptyString
        end
  end.

(** The body of [getFilename] after [new URL(url)], on the pathname. *)
Definition getFilename_of_pathname (pathname : string) : string :=
  if bool_decide (pathname = "/" ∨ pathname = EmptyString) then "index.html"
  else if Js.endsWith pathname "/" then pathname +:+ "index.html"
  else if negb (Js.truthy (Path.extname pathname)) then pathname +:+ ".html"
  else Js.substring1 pathname.

(** The local names [filename], [extension] and [finalFilename] of
    [downloadAsset], from the pathname of the asset, the [content-type] of
    the response and the clock:
    [path.basename(urlPath) || `asset_${Date.now()}`],
    [path.extname(filename) || this.guessExtension(contentType)] and
    [filename.includes('.') ? filename : filename + extension]. *)
Definition asset_filename (urlPath : string) (now : N) : string :=
  let b := Path.basename urlPath in
  if Js.truthy b then b else "asset_" +:+ pretty now.

Definition asset_extension (filename : string) (ct : option string) : JsValue :=
  js_or (JsStr (Path.extname filename)) (guessExtension ct).

Definition asset_finalFilename (filename : string) (extension : JsValue) : string :=
  if Js.includes_char filename "."%char then filename
  else filename +:+ js_to_string extension.

Section WebsiteCloner.

Context `{World}.

(** The constructor: [options.outputDir || './cloned-site'],
    [options.maxDepth || 2] (zero and [NaN] are falsy),
    [options.downloadAssets !== false], and [new URL(this.url)], which
    throws on an unparsable root. *)
Definition new_WebsiteCloner (options : Options) : option Cloner :=
  u ← URL_new (opt_url options) None;
  Some {| this_url := opt_url options;
          outputDir :=
            match opt_outputDir options with
            | Some d => if Js.truthy d then d else "./cloned-site"
            | None => "./cloned-site"
            end;
          maxDepth :=
            match opt_maxDepth options with
            | Some n => if n =? 0 then 2 else n
            | None => 2
            end;
          downloadAssets :=
            match opt_downloadAssets options with
            | Some false => false
            | _ => true
            end;
          baseUrl := u |}.

Variable this : Cloner.

(** [getFilename(url)] *)
Definition getFilename (u : string) : outcome string :=
  match URL_new u None with
  | None => Throw "Invalid URL"
  | Some urlObj => Ok (getFilename_of_pathname (pathname urlObj))
  end.

(** [isInternalLink(href, baseUrl)] *)
Definition isInternalLink (h : string) (base : string) : bool :=
  if negb (Js.truthy h) || Js.startsWith h "#" || Js.startsWith h "mailto:"
     || Js.startsWith h "tel:"
  then false
  else
    match URL_new h (Some base) with
    | Some u => bool_decide (hostname u = hostname (baseUrl this))
    | None => false
    end.

(** [updateAssetReference(asset, localPath, $)] *)
Definition updateAssetReference (asset : Asset) (localPath : string)
    (doc : Document) : Document :=
  let relativePath := Js.backslashes_to_slashes localPath in
  if isStyleAttribute asset then
    let newStyle :=
      Regex.replace_bgImage (originalStyle asset)
        ("background-image: url('" +:+ relativePath +:+ "')") in
    set_attr doc (element asset) "style" newStyle
  else set_attr doc (element asset) (attr asset) relativePath.

(** Selectors. *)
Definition has_attr (el : Element) (name : string) : bool :=
  bool_decide (is_Some (attr_lookup (attrs el) name)).

Definition sel_img_src (el : Element) : bool :=
  bool_decide (tag el = "img") && has_attr el "src".

Definition sel_stylesheet (el : Element) : bool :=
  bool_decide (tag el = "link")
  && bool_decide (attr_lookup (attrs el) "rel" = Some "stylesheet")
  && has_attr el "href".

Definition sel_script_src (el : Element) : bool :=
  bool_decide (tag el = "script") && has_attr el "src".

Definition sel_background (el : Element) : bool :=
  match attr_lookup (attrs el) "style" with
  | Some s => Regex.includes s "background-image" || Regex.includes s "background:"
  | None => false
  end.

Definition sel_a_href (el : Element) : bool :=
  bool_decide (tag el = "a") && has_attr el "href".

(** The four scans of [processAssets], which fill the array [assets]. *)
Definition scan_attr (sel : Element → bool) (name ty : string) (doc : Document)
    : list Asset :=
  omap (λ p : nat * Element,
          match attr_lookup (attrs p.2) name with
          | Some v =>
              if Js.truthy v then
                Some {| element := p.1; attr := name; url := v; type := ty;
                        isStyleAttribute := false; originalStyle := EmptyString |}
              else None
          | None => None
          end)
       (select sel doc).

Definition scan_background (doc : Document) : list Asset :=
  omap (λ p : nat * Element,
          let style := default EmptyString (attr_lookup (attrs p.2) "style") in
          match Regex.bgImageMatch style with
          | Some m =>
              Some {| element := p.1; attr := "style"; url := Regex.capture m;
                      type := "image"; isStyleAttribute := true;
                      originalStyle := style |}
          | None => None
          end)
       (select sel_background doc).

Definition scan_assets (doc : Document) : list Asset :=
  scan_attr sel_img_src "src" "image" doc
  ++ scan_attr sel_stylesheet "href" "css" doc
  ++ scan_attr sel_script_src "src" "js" doc
  ++ scan_background doc.

(** [rewriteLinks($, pageUrl)]: the callback of [each] over the handles
    of the anchors.  The document is mutated in place, so what was
    rewritten before an exception stays rewritten. *)
Fixpoint rewriteLinks_each (pageUrl : string) (els : list nat) (doc : Document)
    : Document * outcome unit :=
  match els with
  | [] => (doc, Ok tt)
  | i :: els' =>
      match doc !! i ≫= (λ el, attr_lookup (attrs el) "href") with
      | Some h =>
          if isInternalLink h pageUrl then
            match URL_new h (Some pageUrl) with
            | None => (doc, Throw "Invalid URL")
            | Some u =>
                match getFilename (href u) with
                | Throw e => (doc, Throw e)
                | Ok localFilename =>
                    rewriteLinks_each pageUrl els' (set_attr doc i "href" localFilename)
                end
            end
          else rewriteLinks_each pageUrl els' doc
      | None => rewriteLinks_each pageUrl els' doc
      end
  end.

Definition rewriteLinks (doc : Document) (pageUrl : string) : Document * outcome unit :=
  rewriteLinks_each pageUrl ((select sel_a_href doc).*1) doc.

(** [[...new Set(links)]]: duplicates removed, first occurrences kept in
    order. *)
Fixpoint dedup (seen : list string) (l : list string) : list string :=
  match l with
  | [] => []
  | x :: l' =>
      if bool_decide (x ∈ seen) then dedup seen l' else x :: dedup (x :: seen) l'
  end.

(** [extractInternalLinks($, pageUrl)] with the visited set it reads. *)
Fixpoint extractInternalLinks_each (visited : gset string) (pageUrl : string)
    (els : list (nat * Element)) : outcome (list string) :=
  match els with
  | [] => Ok []
  | (_, el) :: els' =>
      match attr_lookup (attrs el) "href" with
      | Some h =>
          if Js.truthy h && isInternalLink h pageUrl then
            match URL_new h (Some pageUrl) with
            | None => Throw "Invalid URL"
            | Some u =>
                match extractInternalLinks_each visited pageUrl els' with
                | Throw e => Throw e
                | Ok links =>
                    Ok (if bool_decide (href u ∈ visited) then links
                        else href u :: links)
                end
            end
          else extractInternalLinks_each visited pageUrl els'
      | None => extractInternalLinks_each visited pageUrl els'
      end
  end.

Definition extractInternalLinks (visited : gset string) (doc : Document)
    (pageUrl : string) : outcome (list string) :=
  match extractInternalLinks_each visited pageUrl (select sel_a_href doc) with
  | Throw e => Throw e
  | Ok links => Ok (dedup [] links)
  end.

End WebsiteCloner.

(** ** Crawl state and effects *)

(** Lines the program prints. *)
Inductive LogEntry : Type :=
  | LogCrawling (depth : Z) (u : string)
  | LogDownloading (u : string)
  | LogCrawlError (u e : string)
  | LogAssetError (u e : string).

(** The mutable fields of [this], and what the run did to its
    environment: [gets] lists the arguments of [client.get] in call order,
    [files] the completed [writeFile] calls, [console] the printed lines.
    [clock] counts the platform calls made so far. *)
Record State := {
  clock : nat;
  visitedUrls : gset string;
  downloadedAssets : gset string;
  assetMap : gmap string string;
  gets : list string;
  files : list (string * string);
  console : list LogEntry
}.

Definition initial_state : State :=
  {| clock := 0%nat; visitedUrls := ∅; downloadedAssets := ∅; assetMap := ∅;
     gets := []; files := []; console := [] |}.

Definition M (A : Type) : Type := State → State * outcome A.

Definition ret {A} (a : A) : M A := λ st, (st, Ok a).

Definition throw {A} (e : string) : M A := λ st, (st, Throw e).

Definition bind {A B} (m : M A) (k : A → M B) : M B :=
  λ st, match m st with
        | (st', Ok a) => k a st'
        | (st', Throw e) => (st', Throw e)
        end.

Declare Scope crawl_scope.

Delimit Scope crawl_scope with crawl.

Notation "x <~ m ;; k" := (bind m (λ x, k))
  (at level 100, m at next level, right associativity) : crawl_scope.

Notation "m ;;; k" := (bind m (λ _, k))
  (at level 100, right associativity) : crawl_scope.

Local Open Scope crawl_scope.

(** [try { m } catch (error) { handler(error.message) }] *)
Definition try_catch {A} (m : M A) (handler : string → M A) : M A :=
  λ st, match m st with
        | (st', Ok a) => (st', Ok a)
        | (st', Throw e) => handler e st'
        end.

Definition get_state : M State := λ st, (st, Ok st).

Definition of_option {A} (o : option A) (e : string) : M A :=
  match o with Some a => ret a | None => throw e end.

Definition of_outcome {A} (o : outcome A) : M A :=
  match o with Ok a => ret a | Throw e => throw e end.

Definition tick : M nat :=
  λ st, ({| clock := S (clock st); visitedUrls := visitedUrls st;
            downloadedAssets := downloadedAssets st; assetMap := assetMap st;
            gets := gets st; files := files st; console := console st |},
         Ok (clock st)).

Definition console_log (e : LogEntry) : M unit :=
  λ st, ({| clock := clock st; visitedUrls := visitedUrls st;
            downloadedAssets := downloadedAssets st; assetMap := assetMap st;
            gets := gets st; files := files st; console := console st ++ [e] |},
         Ok tt).

Definition record_get (u : string) : M unit :=
  λ st, ({| clock := clock st; visitedUrls := visitedUrls st;
            downloadedAssets := downloadedAssets st; assetMap := assetMap st;
            gets := gets st ++ [u]; files := files st; console := console st |},
         Ok tt).

Definition record_file (f content : string) : M unit :=
  λ st, ({| clock := clock st; visitedUrls := visitedUrls st;
            downloadedAssets := downloadedAssets st; assetMap := assetMap st;
            gets := gets st; files := files st ++ [(f, content)];
            console := console st |},
         Ok tt).

(** [this.visitedUrls.add(u)] *)
Definition visitedUrls_add (u : string) : M unit :=
  λ st, ({| clock := clock st; visitedUrls := {[u]} ∪ visitedUrls st;
            downloadedAssets := downloadedAssets st; assetMap := assetMap st;
            gets := gets st; files := files st; console := console st |},
         Ok tt).

(** [this.downloadedAssets.add(u); this.assetMap.set(u, p)] *)
Definition asset_store_add (u p : string) : M unit :=
  λ st, ({| clock := clock st; visitedUrls := visitedUrls st;
            downloadedAssets := {[u]} ∪ downloadedAssets st;
            assetMap := <[u := p]> (assetMap st);
            gets := gets st; files := files st; console := console st |},
         Ok tt).

Section Crawl.

Context `{World}.
Variable this : Cloner.

(** [await this.client.get(u)] *)
Definition client_get (u : string) : M Response :=
  t <~ tick ;;
  record_get u ;;;
  of_option (http_get t u) "request failed".

(** [await fs.ensureDir(dir)] *)
Definition fs_ensureDir (dir : string) : M unit :=
  t <~ tick ;;
  if fs_ensureDir_ok t dir then ret tt else throw "ensureDir failed".

(** [await fs.writeFile(f, content)] *)
Definition fs_writeFile (f content : string) : M unit :=
  t <~ tick ;;
  if fs_writeFile_ok t f then record_file f content else throw "writeFile failed".

(** The body of the [try] block of [downloadAsset]. *)
Definition downloadAsset_try (asset : Asset) (pageUrl : string) (doc : Document)
    : M Document :=
  abs <~ of_option (URL_new (url asset) (Some pageUrl)) "Invalid URL" ;;
  let absoluteUrl := href abs in
  st <~ get_state ;;
  if bool_decide (absoluteUrl ∈ downloadedAssets st) then
    (* undefined has no method replace *)
    localPath <~ of_option (assetMap st !! absoluteUrl) "TypeError" ;;
    ret (updateAssetReference asset localPath doc)
  else
    console_log (LogDownloading absoluteUrl) ;;;
    response <~ client_get absoluteUrl ;;
    u <~ of_option (URL_new absoluteUrl None) "Invalid URL" ;;
    let urlPath := pathname u in
    st1 <~ get_state ;;
    let filename := asset_filename urlPath (Date_now (clock st1)) in
    let extension := asset_extension filename (content_type response) in
    let finalFilename := asset_finalFilename filename extension in
    let assetDir := Path.join [outputDir this; "assets"; type asset] in
    fs_ensureDir assetDir ;;;
    let localFilePath := Path.join [assetDir; finalFilename] in
    let relativePath := Path.relative process_cwd (outputDir this) localFilePath in
    fs_writeFile localFilePath (data response) ;;;
    asset_store_add absoluteUrl relativePath ;;;
    ret (updateAssetReference asset relativePath doc).

(** [downloadAsset(asset, pageUrl, $)]: the document after the call. *)
Definition downloadAsset (asset : Asset) (pageUrl : string) (doc : Document)
    : M Document :=
  try_catch (downloadAsset_try asset pageUrl doc)
    (λ e, console_log (LogAssetError (url asset) e) ;;; ret doc).

(** [for (const asset of assets) await this.downloadAsset(asset, pageUrl, $)] *)
Fixpoint downloadAssets_loop (assets : list Asset) (pageUrl : string)
    (doc : Document) : M Document :=
  match assets with
  | [] => ret doc
  | asset :: rest =>
      doc' <~ downloadAsset asset pageUrl doc ;;
      downloadAssets_loop rest pageUrl doc'
  end.

(** [processAssets($, pageUrl)] *)
Definition processAssets (doc : Document) (pageUrl : string) : M Document :=
  downloadAssets_loop (scan_assets doc) pageUrl doc.

(** The [try] block of [crawlPage] up to the loop over the links: the
    links to follow. *)
Definition crawlPage_visit (u : string) (depth : Z) : M (list string) :=
  console_log (LogCrawling depth u) ;;;
  response <~ client_get u ;;
  doc <~ of_option (cheerio_load (data response)) "load failed" ;;
  visitedUrls_add u ;;;
  doc1 <~ (if downloadAssets this then processAssets doc u else ret doc) ;;
  doc2 <~ (let '(d, r) := rewriteLinks this doc1 u in _ <~ of_outcome r ;; ret d) ;;
  filename <~ of_outcome (getFilename u) ;;
  let filepath := Path.join [outputDir this; filename] in
  fs_ensureDir (Path.dirname filepath) ;;;
  fs_writeFile filepath (cheerio_html doc2) ;;;
  st <~ get_state ;;
  of_outcome (extractInternalLinks this (visitedUrls st) doc2 u).

(** [for (const link of links) await this.crawlPage(link, depth + 1)],
    for the recursive call [crawl]; an exception of a call would leave
    the loop. *)
Fixpoint crawl_links (crawl : string → State → option (State * outcome unit))
    (links : list string) (st : State) : option (State * outcome unit) :=
  match links with
  | [] => Some (st, Ok tt)
  | link :: rest =>
      match crawl link st with
      | Some (st', Ok _) => crawl_links crawl rest st'
      | r => r
      end
  end.

(** The [catch] block of [crawlPage]. *)
Definition crawlPage_catch (u : string) (body : option (State * outcome unit))
    : option (State * outcome unit) :=
  match body with
  | Some (st', Throw e) => Some (console_log (LogCrawlError u e) st')
  | r => r
  end.

(** [crawlPage(url, depth)].  [fuel] bounds the nesting of calls; [None]
    means it ran out. *)
Fixpoint crawlPage (fuel : nat) (u : string) (depth : Z) (st : State)
    : option (State * outcome unit) :=
  match fuel with
  | O => None
  | S fuel' =>
      if (depth >? maxDepth this) || bool_decide (u ∈ visitedUrls st) then
        Some (st, Ok tt)
      else
        crawlPage_catch u
          match crawlPage_visit u depth st with
          | (st1, Throw e) => Some (st1, Throw e)
          | (st1, Ok links) =>
              crawl_links (λ link, crawlPage fuel' link (depth + 1)) links st1
          end
  end.

(** Enough fuel for a call at [depth]. *)
Definition fuel_for (depth : Z) : nat := S (Z.to_nat (maxDepth this + 1 - depth)).

(** [clone()], without the conversion step. *)
Definition clone (fuel : nat) : State → option (State * outcome unit) :=
  λ st,
    match fs_ensureDir (outputDir this) st with
    | (st1, Throw e) => Some (st1, Throw e)
    | (st1, Ok _) => crawlPage fuel (this_url this) 0 st1
    end.

End Crawl.

(** ** A test world

    A small instance of [World] on which the program can be run: a URL
    parser for [http] and [https] addresses (no credentials, no dot
    segments, host names already in lower case), a site given as a table
    from addresses to responses, a parser given as a table from bodies to
    documents, a file system that never fails. *)

Module TestWorld.

Fixpoint span_until (stop : ascii → bool) (s : list ascii)
    : list ascii * list ascii :=
  match s with
  | [] => ([], [])
  | c :: s' =>
      if stop c then ([], s)
      else let '(a, b) := span_until stop s' in (c :: a, b)
  end.

Definition is_path_end (c : ascii) : bool :=
  Ascii.eqb c "?"%char || Ascii.eqb c "#"%char.

Definition is_host_end (c : ascii) : bool :=
  Ascii.eqb c "/"%char || is_path_end c.

Definition is_frag (c : ascii) : bool := Ascii.eqb c "#"%char.

(** A parsed address: scheme with its colon and slashes, host with port,
    path, and the rest (query and fragment). *)
Record parts := { p_scheme : string; p_host : string; p_path : string; p_rest : string }.

Definition parse_absolute (s : string) : option parts :=
  let go scheme body :=
    let '(host, r) := span_until is_host_end body in
    let '(path, rest) := span_until is_path_end r in
    match host with
    | [] => None
    | _ => Some {| p_scheme := scheme; p_host := Js.of_chars host;
                   p_path := match path with [] => "/" | _ => Js.of_chars path end;
                   p_rest := Js.of_chars rest |}
    end in
  match Regex.strip_prefix (Js.chars "http://") (Js.chars s) with
  | Some body => go "http://" body
  | None =>
      match Regex.strip_prefix (Js.chars "https://") (Js.chars s) with
      | Some body => go "https://" body
      | None => None
      end
  end.

Definition to_URL (p : parts) : URL :=
  {| href := p_scheme p +:+ p_host p +:+ p_path p +:+ p_rest p;
     hostname := Js.split_head (p_host p) ":"%char;
     pathname := p_path p |}.

(** An address with a scheme other than the two above ([mailto:],
    [tel:], [data:]): no host, the remainder is the path. *)
Definition parse_opaque (s : string) : option URL :=
  let '(scheme, r) := span_until (λ c, Ascii.eqb c ":"%char || is_host_end c) (Js.chars s) in
  match scheme, r with
  | _ :: _, c :: path =>
      if Ascii.eqb c ":"%char then
        Some {| href := s; hostname := EmptyString;
                pathname := Js.of_chars (span_until is_path_end path).1 |}
      else None
  | _, _ => None
  end.

Definition directory (path : string) : string :=
  Js.of_chars (rev (span_until (λ c, Ascii.eqb c "/"%char) (rev (Js.chars path))).2).

Definition parse (input : string) (base : option string) : option URL :=
  match parse_absolute input with
  | Some p => Some (to_URL p)
  | None =>
      match parse_opaque input with
      | Some u => Some u
      | None =>
          b ← base ≫= parse_absolute;
          let '(path, rest) := span_until is_path_end (Js.chars input) in
          match path with
          | [] =>
              let query := Js.of_chars (span_until is_frag (Js.chars (p_rest b))).1 in
              Some (to_URL {| p_scheme := p_scheme b; p_host := p_host b;
                              p_path := p_path b;
                              p_rest := if Js.startsWith input "#"
                                        then query +:+ Js.of_chars rest
                                        else Js.of_chars rest |})
          | c :: _ =>
              Some (to_URL {| p_scheme := p_scheme b; p_host := p_host b;
                              p_path := if Ascii.eqb c "/"%char then Js.of_chars path
                                        else directory (p_path b) +:+ Js.of_chars path;
                              p_rest := Js.of_chars rest |})
          end
      end
  end.

Fixpoint assoc {A} (l : list (string * A)) (k : string) : option A :=
  match l with
  | [] => None
  | (k', v) :: l' => if decide (k' = k) then Some v else assoc l' k
  end.

Definition print_element (el : Element) : string :=
  "<" +:+ tag el
      +:+ foldr (λ kv acc, " " +:+ kv.1 +:+ "=[" +:+ kv.2 +:+ "]" +:+ acc) ">" (attrs el).

Definition print_document (doc : Document) : string :=
  foldr (λ el acc, print_element el +:+ acc) EmptyString doc.

(** The world of a static site: [site] maps addresses to responses and
    [pages] maps bodies to their parsed documents. *)
Definition world (site : list (string * Response)) (pages : list (string * Document))
    : World :=
  {| URL_new := parse;
     http_get := λ _ u, assoc site u;
     Date_now := λ t, (1700000000000 + N.of_nat t)%N;
     fs_ensureDir_ok := λ _ _, true;
     fs_writeFile_ok := λ _ _, true;
     cheerio_load := λ body, Some (default [] (assoc pages body));
     cheerio_html := print_document;
     process_cwd := "/home/user" |}.

End TestWorld.

(** ** Vocabulary of the properties *)

(** The store is consistent: the keys of [assetMap] are the members of
    [downloadedAssets]. *)
Definition store_ok (st : State) : Prop := dom (assetMap st) = downloadedAssets st.

Definition asset_log (e : LogEntry) : Prop :=
  match e with
  | LogDownloading _ | LogAssetError _ _ => True
  | _ => False
  end.

(** What an asset operation may do: it leaves the visited set alone,
    prints only asset lines, and only extends a consistent store. *)
Record asset_step (st st' : State) : Prop := {
  as_visited : visitedUrls st' = visitedUrls st;
  as_console : ∃ new, console st' = console st ++ new ∧ Forall asset_log new;
  as_store : store_ok st → store_ok st' ∧ assetMap st ⊆ assetMap st'
}.



(** What a call of [crawlPage] at depth [lo] or deeper may print about
    pages: fetches at depths between [lo] and [maxDepth], of pages not
    visited when the call started. *)
Definition crawl_log (this : Cloner) (lo : Z) (st0 : State) (e : LogEntry) : Prop :=
  match e with
  | LogCrawling d v => lo ≤ d ≤ maxDepth this ∧ v ∉ visitedUrls st0
  | _ => True
  end.

Record crawl_step (this : Cloner) (lo : Z) (st st' : State) : Prop := {
  cs_visited : visitedUrls st ⊆ visitedUrls st';
  cs_console : ∃ new, console st' = console st ++ new ∧ Forall (crawl_log this lo st) new;
  cs_store : store_ok st → store_ok st' ∧ assetMap st ⊆ assetMap st'
}.

Ltac munfold :=
  unfold client_get, fs_ensureDir, fs_writeFile, bind, tick, record_get,
    record_file, of_option, of_outcome, ret, throw, get_state, console_log,
    asset_store_add, visitedUrls_add in *;
  simpl in *.

(** Case analysis on the innermost scrutinees first. *)
Ltac mcase :=
  repeat match goal with
         | |- context [match ?x with _ => _ end] =>
             lazymatch x with
             | context [match _ with _ => _ end] => fail
             | _ => destruct x eqn:?; simpl
             end
         end.

(** ** Scenarios *)

Module Scenario.

(** The options of a run on [u] with every other field left out. *)
Definition options_for (u : string) : Options :=
  {| opt_url := u; opt_outputDir := None; opt_maxDepth := None;
     opt_downloadAssets := None |}.

Definition html (body : string) : Response :=
  {| data := body; content_type := Some "text/html" |}.

(** A site with the single page [http://site.test/about], without links. *)
Definition about_world : World :=
  TestWorld.world [("http://site.test/about", html "ABOUT")]
                  [("ABOUT", [ {| tag := "p"; attrs := [] |} ])].

(** The files written by [clone] for the options [o], in order. *)
Definition files_written (W : World) (o : Options) : option (list string) :=
  this ← new_WebsiteCloner o;
  r ← clone this (fuel_for this 0) initial_state;
  Some ((files r.1).*1).

End Scenario.

Module LinkScenario.

Definition page : Document :=
  [ {| tag := "a"; attrs := [("href", "https://other.example/x")] |} ].

Definition W : World :=
  TestWorld.world [("http://site.test/", Scenario.html "ROOT")] [("ROOT", page)].

(** [this] for a run on [http://site.test/]. *)
Definition this : Cloner :=
  {| this_url := "http://site.test/"; outputDir := "./cloned-site"; maxDepth := 2;
     downloadAssets := true;
     baseUrl := {| href := "http://site.test/"; hostname := "site.test";
                   pathname := "/" |} |}.

End LinkScenario.

Module StyleScenario.

Definition jpeg : Response := {| data := "JPG"; content_type := Some "image/jpeg" |}.

Definition W : World :=
  TestWorld.world [("http://site.test/bg.jpg", jpeg)] [].

Definition this : Cloner := LinkScenario.this.

(** An element styled with the long form of the property. *)
Definition long_form : Document :=
  [ {| tag := "div";
       attrs := [("style", "color: red; background-image: url(/bg.jpg); margin: 0")] |} ].

(** The same element styled with the shorthand. *)
Definition shorthand : Document :=
  [ {| tag := "div";
       attrs := [("style", "color: red; background: url(/bg.jpg); margin: 0")] |} ].

(** The document and the requests after [processAssets]. *)
Definition processed (doc : Document) : outcome Document * list string :=
  let r := @processAssets W this doc "http://site.test/" initial_state in
  (r.2, gets r.1).

End StyleScenario.

Module AssetScenario.

(** A site that serves [/img/logo] with the content type [ct]. *)
Definition W (ct : string) : World :=
  TestWorld.world
    [("http://site.test/img/logo", {| data := "PNG"; content_type := Some ct |})] [].

Definition page (tagname : string) : Document :=
  [ {| tag := tagname; attrs := [("src", "/img/logo")] |} ].

(** The files written and the store after [processAssets] on a page
    that refers to [/img/logo] from an element [tagname]. *)
Definition saved (ct tagname : string) : list string * list (string * string) :=
  let r := @processAssets (W ct) LinkScenario.this (page tagname)
             "http://site.test/" initial_state in
  ((files r.1).*1, map_to_list (assetMap r.1)).

End AssetScenario.

(** The file an asset is written to and the path recorded for it, from
    the category of the reference, the path of the address, the content
    type of the response and the clock. *)
Definition asset_localFilePath (this : Cloner) (ty urlPath : string)
    (ct : option string) (now : N) : string :=
  let filename := asset_filename urlPath now in
  Path.join [Path.join [outputDir this; "assets"; ty];
             asset_finalFilename filename (asset_extension filename ct)].

Definition asset_relativePath `{World} (this : Cloner) (ty urlPath : string)
    (ct : option string) (now : N) : string :=
  Path.relative process_cwd (outputDir this) (asset_localFilePath this ty urlPath ct now).

Module CrawlScenario.

Definition stylesheet : Element :=
  {| tag := "link"; attrs := [("rel", "stylesheet"); ("href", "/css/site.css")] |}.

Definition anchor (h : string) : Element := {| tag := "a"; attrs := [("href", h)] |}.

(** Four pages in a chain; the first refers to one style sheet twice,
    the second once; the first, the third and the fourth link back to
    the first. *)
Definition W : World :=
  TestWorld.world
    [ ("http://site.test/index.html", Scenario.html "INDEX");
      ("http://site.test/a.html", Scenario.html "A");
      ("http://site.test/b.html", Scenario.html "B");
      ("http://site.test/c.html", Scenario.html "C");
      ("http://site.test/css/site.css", {| data := "CSS"; content_type := Some "text/css" |}) ]
    [ ("INDEX", [stylesheet; stylesheet; anchor "index.html"; anchor "a.html"]);
      ("A", [stylesheet; anchor "b.html"]);
      ("B", [anchor "c.html"; anchor "/index.html"]);
      ("C", [anchor "index.html"]) ].

Definition options (depth : option Z) : Options :=
  {| opt_url := "http://site.test/index.html"; opt_outputDir := None;
     opt_maxDepth := depth; opt_downloadAssets := None |}.

(** [new WebsiteCloner(options).clone()] from the initial state. *)
Definition run (depth : option Z) : option (State * outcome unit) :=
  this ← @new_WebsiteCloner W (options depth);
  @clone W this (fuel_for this 0) initial_state.

(** A world in which every request fails. *)
Definition offline : World := TestWorld.world [] [].

End CrawlScenario.

(** ** Vocabulary of the further properties *)

(** The attributes the pipeline may rewrite. *)
Definition rewritable (name : string) : Prop :=
  name = "src" ∨ name = "href" ∨ name = "style".

(** [doc'] has the elements of [doc], with the same tags and the same
    values for every attribute that is not rewritable. *)
Definition same_shape (doc doc' : Document) : Prop :=
  length doc' = length doc
  ∧ ∀ i el, doc !! i = Some el →
      ∃ el', doc' !! i = Some el'
             ∧ tag el' = tag el
             ∧ ∀ name, ¬ rewritable name →
                 attr_lookup (attrs el') name = attr_lookup (attrs el) name.

(** What an entry of the [assets] array says about the document it was
    scanned from. *)
Definition well_formed_asset (doc : Document) (a : Asset) : Prop :=
  ∃ el,
    doc !! element a = Some el
    ∧ url a ≠ EmptyString
    ∧ ((isStyleAttribute a = false
        ∧ attr_lookup (attrs el) (attr a) = Some (url a)
        ∧ ((attr a = "src" ∧ type a = "image" ∧ tag el = "img")
           ∨ (attr a = "href" ∧ type a = "css" ∧ tag el = "link")
           ∨ (attr a = "src" ∧ type a = "js" ∧ tag el = "script")))
       ∨ (isStyleAttribute a = true
          ∧ attr a = "style" ∧ type a = "image"
          ∧ attr_lookup (attrs el) "style" = Some (originalStyle a)
          ∧ ∃ m, Regex.bgImageMatch (originalStyle a) = Some m
                 ∧ Regex.capture m = url a)).

(** The addresses announced on the console, in order: those of the lines
    that precede a request. *)
Definition announced (l : list LogEntry) : list string :=
  omap (λ e, match e with
             | LogCrawling _ u | LogDownloading u => Some u
             | _ => None
             end) l.

(** The page lines of [l] are all about addresses that satisfy [P]. *)
Definition page_lines (P : string → Prop) (l : list LogEntry) : Prop :=
  Forall (λ e, match e with LogCrawling _ v => P v | _ => True end) l.

(** What an asset operation does to the logs: it appends lines about
    assets, one request for each announcement, and at most as many files
    as requests; the visited set is untouched. *)
Definition asset_io (st st' : State) : Prop :=
  ∃ new f,
    console st' = console st ++ new
    ∧ gets st' = gets st ++ announced new
    ∧ files st' = files st ++ f
    ∧ (length f ≤ length (announced new))%nat
    ∧ Forall asset_log new
    ∧ visitedUrls st' = visitedUrls st.

Section VisitSteps.

Context `{World}.
Variable this : Cloner.

(** [v] is the address of a resolved reference whose host is the root's. *)
Definition on_root_host (v : string) : Prop :=
  ∃ h base u, URL_new h (Some base) = Some u ∧ href u = v
              ∧ hostname u = hostname (baseUrl this).

(** What a call of the crawl does to the logs and the sets. *)
Definition trace (P : string → Prop) (st st' : State) : Prop :=
  ∃ new f,
    console st' = console st ++ new
    ∧ gets st' = gets st ++ announced new
    ∧ files st' = files st ++ f
    ∧ (length f ≤ length (announced new))%nat
    ∧ page_lines P new
    ∧ (∀ v, v ∈ visitedUrls st' → v ∈ visitedUrls st ∨ ∃ d, LogCrawling d v ∈ new)
    ∧ (downloadAssets this = false →
       assetMap st' = assetMap st ∧ downloadedAssets st' = downloadedAssets st
       ∧ Forall (λ e, ¬ asset_log e) new).

(** The state after the line of a page has been printed and its request
    issued. *)
Definition visit_requested (u : string) (depth : Z) (st : State) : State :=
  {| clock := S (clock st); visitedUrls := visitedUrls st;
     downloadedAssets := downloadedAssets st; assetMap := assetMap st;
     gets := gets st ++ [u]; files := files st;
     console := console st ++ [LogCrawling depth u] |}.

(** The state after the page has been marked visited. *)
Definition visit_marked (u : string) (depth : Z) (st : State) : State :=
  {| clock := S (clock st); visitedUrls := {[u]} ∪ visitedUrls st;
     downloadedAssets := downloadedAssets st; assetMap := assetMap st;
     gets := gets st ++ [u]; files := files st;
     console := console st ++ [LogCrawling depth u] |}.

(** The asset step of a visit:
    [if (this.downloadAssets) await this.processAssets($, url)]. *)
Definition visit_assets (u : string) (doc : Document) : M Document :=
  if downloadAssets this then processAssets this doc u else ret doc.

End VisitSteps.

(** Two configurations for runs on the site of [CrawlScenario]: with and
    without the download of assets. *)
Module CrawlRun.

Definition root : string := "http://site.test/index.html".

Definition this : Cloner :=
  {| this_url := root; outputDir := "./cloned-site"; maxDepth := 3;
     downloadAssets := true;
     baseUrl := {| href := root; hostname := "site.test"; pathname := "/index.html" |} |}.

Definition pages_only : Cloner :=
  {| this_url := root; outputDir := "./cloned-site"; maxDepth := 3;
     downloadAssets := false;
     baseUrl := {| href := root; hostname := "site.test"; pathname := "/index.html" |} |}.

End CrawlRun.

(** A site with two images of the same name in two directories. *)
Module CollisionScenario.

Definition W : World :=
  TestWorld.world
    [ ("http://site.test/a/logo.png", {| data := "FIRST"; content_type := Some "image/png" |});
      ("http://site.test/b/logo.png", {| data := "SECOND"; content_type := Some "image/png" |}) ]
    [].

Definition img (src : string) : Element := {| tag := "img"; attrs := [("src", src)] |}.

Definition page : Document := [img "/a/logo.png"; img "/b/logo.png"].

Definition asset (i : nat) (src : string) : Asset :=
  {| element := i; attr := "src"; url := src; type := "image";
     isStyleAttribute := false; originalStyle := EmptyString |}.

Definition address (p : string) : URL :=
  {| href := "http://site.test" +:+ p; hostname := "site.test"; pathname := p |}.

End CollisionScenario.

(** * Properties *)

(** ** The platform models on examples *)

Example extname_ex1 : Path.extname "/a/index.coffee.md" = ".md".
Proof. reflexivity. Qed.

Example extname_ex2 : Path.extname "/about" = EmptyString.
Proof. reflexivity. Qed.

Example extname_ex3 : Path.extname "/.index" = EmptyString.
Proof. reflexivity. Qed.

Example extname_ex4 : Path.extname "/a.html/" = ".html".
Proof. reflexivity. Qed.

Example extname_ex5 : Path.extname "/x/.." = EmptyString.
Proof. reflexivity. Qed.

Example extname_ex6 : Path.extname "index." = ".".
Proof. reflexivity. Qed.

Example basename_ex1 : Path.basename "/img/logo" = "logo".
Proof. reflexivity. Qed.

Example basename_ex2 : Path.basename "/img/" = "img".
Proof. reflexivity. Qed.

Example basename_ex3 : Path.basename "/" = EmptyString.
Proof. reflexivity. Qed.

Example join_ex1 : Path.join ["./cloned-site"; "/about.html"] = "cloned-site/about.html".
Proof. reflexivity. Qed.

Example join_ex2 : Path.join ["./cloned-site"; "assets"; "image"] = "cloned-site/assets/image".
Proof. reflexivity. Qed.

Example dirname_ex1 : Path.dirname "cloned-site/blog/index.html" = "cloned-site/blog".
Proof. reflexivity. Qed.

Example dirname_ex2 : Path.dirname "/index.html" = "/".
Proof. reflexivity. Qed.

Example relative_ex1 :
  Path.relative "/home/u" "./cloned-site" "cloned-site/assets/image/logo.png"
  = "assets/image/logo.png".
Proof. reflexivity. Qed.

Example bgImageMatch_ex1 :
  Regex.capture <$> Regex.bgImageMatch "color: red; background-image: url('/bg.jpg'); margin: 0"
  = Some "/bg.jpg".
Proof. reflexivity. Qed.

Example bgImageMatch_ex2 : Regex.bgImageMatch "background: url(/bg.jpg)" = None.
Proof. reflexivity. Qed.

Example replace_ex1 :
  Regex.replace_bgImage "color: red; background-image:url(/bg.jpg); margin: 0"
    "background-image: url('assets/image/bg.jpg')"
  = "color: red; background-image: url('assets/image/bg.jpg'); margin: 0".
Proof. reflexivity. Qed.

Example parse_ex1 :
  TestWorld.parse "http://site.test/about" None
  = Some {| href := "http://site.test/about"; hostname := "site.test"; pathname := "/about" |}.
Proof. reflexivity. Qed.

Example parse_ex2 :
  TestWorld.parse "/img/logo?v=1#x" (Some "http://site.test/blog/")
  = Some {| href := "http://site.test/img/logo?v=1#x"; hostname := "site.test"; pathname := "/img/logo" |}.
Proof. reflexivity. Qed.

Example parse_ex3 :
  TestWorld.parse "http://site.test" None
  = Some {| href := "http://site.test/"; hostname := "site.test"; pathname := "/" |}.
Proof. reflexivity. Qed.

Example parse_ex4 :
  TestWorld.parse "post.html" (Some "http://site.test/blog/index.html")
  = Some {| href := "http://site.test/blog/post.html"; hostname := "site.test"; pathname := "/blog/post.html" |}.
Proof. reflexivity. Qed.

Example parse_ex5 : TestWorld.parse "about" None = None.
Proof. reflexivity. Qed.

Example parse_ex6 :
  hostname <$> TestWorld.parse "mailto:a@site.test" (Some "http://site.test/") = Some EmptyString.
Proof. reflexivity. Qed.

(** ** How the operations move the state *)

Lemma asset_step_refl st : asset_step st st.
Proof.
  split; [done | exists []; by rewrite app_nil_r | done].
Qed.

Lemma asset_step_trans st1 st2 st3 :
  asset_step st1 st2 → asset_step st2 st3 → asset_step st1 st3.
Proof.
  intros [V1 (n1 & C1 & F1) S1] [V2 (n2 & C2 & F2) S2]. split.
  - congruence.
  - exists (n1 ++ n2). rewrite C2, C1, app_assoc. split; [done | by apply Forall_app].
  - intros Hok. destruct (S1 Hok) as [Hok2 Hsub1]. destruct (S2 Hok2) as [Hok3 Hsub2].
    split; [done | by etrans].
Qed.



Lemma crawl_step_refl this lo st : crawl_step this lo st st.
Proof. split; [done | exists []; by rewrite app_nil_r | done]. Qed.

Lemma crawl_log_weaken this lo lo' st0 st1 e :
  lo' ≤ lo → visitedUrls st1 ⊆ visitedUrls st0 →
  crawl_log this lo st0 e → crawl_log this lo' st1 e.
Proof.
  intros Hlo Hsub. destruct e; simpl; try done.
  intros [Hd Hv]. split; [lia |]. intros Hin. apply Hv, Hsub, Hin.
Qed.

Lemma crawl_step_trans this lo st1 st2 st3 :
  crawl_step this lo st1 st2 → crawl_step this lo st2 st3 → crawl_step this lo st1 st3.
Proof.
  intros [V1 (n1 & C1 & F1) S1] [V2 (n2 & C2 & F2) S2]. split.
  - by etrans.
  - exists (n1 ++ n2). rewrite C2, C1, app_assoc. split; [done |].
    apply Forall_app. split; [done |].
    eapply Forall_impl; [exact F2 |]. intros e. by apply crawl_log_weaken.
  - intros Hok. destruct (S1 Hok) as [Hok2 Hsub1]. destruct (S2 Hok2) as [Hok3 Hsub2].
    split; [done | by etrans].
Qed.

Lemma crawl_step_weaken this lo lo' st st' :
  lo' ≤ lo → crawl_step this lo st st' → crawl_step this lo' st st'.
Proof.
  intros Hlo [V (n & C & F) S]. split; [done | | done].
  exists n. split; [done |]. eapply Forall_impl; [exact F |].
  intros e. by apply crawl_log_weaken.
Qed.


(** The loop over the links inherits what every call guarantees. *)
Lemma crawl_links_spec (R : State → State → Prop) crawl :
  (∀ s, R s s) → (∀ s1 s2 s3, R s1 s2 → R s2 s3 → R s1 s3) →
  (∀ l s s' r, crawl l s = Some (s', r) → r = Ok tt ∧ R s s') →
  ∀ links s s' r, crawl_links crawl links s = Some (s', r) → r = Ok tt ∧ R s s'.
Proof.
  intros Hrefl Htrans Hcrawl links.
  induction links as [|l links IH]; intros s s' r; simpl.
  - intros [= <- <-]. auto.
  - destruct (crawl l s) as [[s1 [[]|e]]|] eqn:Hl; [| | done].
    + intros Hrest. destruct (Hcrawl _ _ _ _ Hl) as [_ H1].
      destruct (IH _ _ _ Hrest) as [-> H2]. eauto.
    + destruct (Hcrawl _ _ _ _ Hl) as [? _]. done.
Qed.

Lemma crawl_links_returns crawl :
  (∀ l s, ∃ s', crawl l s = Some (s', Ok tt)) →
  ∀ links s, ∃ s', crawl_links crawl links s = Some (s', Ok tt).
Proof.
  intros Hcrawl links. induction links as [|l links IH]; intros s; simpl; [eauto |].
  destruct (Hcrawl l s) as [s1 ->]. apply IH.
Qed.

Section Frames.

Context `{World}.
Variable this : Cloner.

Lemma client_get_step u st :
  asset_step st (client_get u st).1
  ∧ files (client_get u st).1 = files st
  ∧ downloadedAssets (client_get u st).1 = downloadedAssets st
  ∧ assetMap (client_get u st).1 = assetMap st
  ∧ console (client_get u st).1 = console st
  ∧ clock (client_get u st).1 = S (clock st)
  ∧ (client_get u st).2 = match http_get (clock st) u with
                          | Some r => Ok r
                          | None => Throw "request failed"
                          end.
Proof.
  unfold client_get, bind, tick, record_get, of_option, ret, throw. simpl.
  destruct (http_get (clock st) u); simpl;
    (split; [split; simpl; [done | exists []; by rewrite app_nil_r | done] | done]).
Qed.

Lemma downloadAsset_returns asset pageUrl doc st :
  ∃ doc', (downloadAsset this asset pageUrl doc st).2 = Ok doc'.
Proof.
  unfold downloadAsset, try_catch.
  destruct (downloadAsset_try this asset pageUrl doc st) as [st1 [d|e]]; simpl; eauto.
Qed.

Lemma store_insert_fresh (m : gmap string string) (s : gset string) a p :
  dom m = s → a ∉ s → dom (<[a := p]> m) = {[a]} ∪ s ∧ m ⊆ <[a := p]> m.
Proof.
  intros Hdom Ha. split.
  - by rewrite dom_insert_L, Hdom.
  - apply insert_subseteq. apply not_elem_of_dom. by rewrite Hdom.
Qed.

Lemma downloadAsset_step asset pageUrl doc st :
  asset_step st (downloadAsset this asset pageUrl doc st).1.
Proof.
  unfold downloadAsset, try_catch, downloadAsset_try.
  munfold. mcase; simpl.
  all: split; simpl; try done.
  all: try (exists []; by rewrite app_nil_r).
  all: try (rewrite <- app_assoc; eexists; split; [reflexivity | repeat constructor]).
  all: try (eexists; split; [reflexivity | repeat constructor]).
  intros Hok. apply store_insert_fresh; [done |].
  match goal with
  | Hb : bool_decide _ = false |- _ => by apply bool_decide_eq_false in Hb
  end.
Qed.

Lemma downloadAssets_loop_returns assets pageUrl doc st :
  ∃ doc', (downloadAssets_loop this assets pageUrl doc st).2 = Ok doc'.
Proof.
  revert doc st. induction assets as [|a assets IH]; intros doc st; simpl.
  - by exists doc.
  - unfold bind. destruct (downloadAsset_returns a pageUrl doc st) as [d Hd].
    destruct (downloadAsset this a pageUrl doc st) as [st1 r]. simpl in Hd. subst r.
    apply IH.
Qed.

Lemma downloadAssets_loop_step assets pageUrl doc st :
  asset_step st (downloadAssets_loop this assets pageUrl doc st).1.
Proof.
  revert doc st. induction assets as [|a assets IH]; intros doc st; simpl.
  - apply asset_step_refl.
  - unfold bind. pose proof (downloadAsset_step a pageUrl doc st) as Hs.
    destruct (downloadAsset_returns a pageUrl doc st) as [d Hd].
    destruct (downloadAsset this a pageUrl doc st) as [st1 r]. simpl in *. subst r.
    eapply asset_step_trans; [exact Hs | apply IH].
Qed.

Lemma processAssets_spec doc pageUrl st :
  ∃ st' doc', processAssets this doc pageUrl st = (st', Ok doc') ∧ asset_step st st'.
Proof.
  unfold processAssets.
  destruct (downloadAssets_loop_returns (scan_assets doc) pageUrl doc st) as [d Hd].
  pose proof (downloadAssets_loop_step (scan_assets doc) pageUrl doc st) as Hs.
  destruct (downloadAssets_loop this (scan_assets doc) pageUrl doc st) as [st1 r].
  simpl in *. subst r. eauto.
Qed.

(** The visit of a page prints its line first, then only asset lines;
    it adds at most the page to the visited set, and adds it whenever it
    hands links back. *)
Lemma crawlPage_visit_spec u depth st :
  ∃ st' r new,
    crawlPage_visit this u depth st = (st', r)
    ∧ console st' = console st ++ LogCrawling depth u :: new
    ∧ Forall asset_log new
    ∧ (visitedUrls st' = visitedUrls st ∨ visitedUrls st' = {[u]} ∪ visitedUrls st)
    ∧ (∀ links, r = Ok links → visitedUrls st' = {[u]} ∪ visitedUrls st)
    ∧ (store_ok st → store_ok st' ∧ assetMap st ⊆ assetMap st').
Proof.
  unfold crawlPage_visit.
  unfold bind at 1. unfold console_log at 1.
  unfold bind at 1.
  pose proof (client_get_step u
    {| clock := clock st; visitedUrls := visitedUrls st;
       downloadedAssets := downloadedAssets st; assetMap := assetMap st;
       gets := gets st; files := files st;
       console := console st ++ [LogCrawling depth u] |})
    as (Hg & _ & Hgd & Hgm & Hgc & _ & Hgr).
  destruct (client_get _ _) as [st1 r1]. simpl in *. subst r1.
  destruct Hg as [Hgv _ _]. simpl in Hgv.
  destruct (http_get (clock st) u) as [resp|]; simpl.
  2:{ do 2 eexists. exists []. split; [reflexivity |].
      rewrite Hgc, Hgv. unfold store_ok. rewrite Hgd, Hgm.
      split_and!; auto; done. }
  unfold bind at 1. unfold of_option at 1.
  destruct (cheerio_load (data resp)) as [doc|]; simpl.
  2:{ unfold throw. do 2 eexists. exists []. split; [reflexivity |].
      rewrite Hgc, Hgv. unfold store_ok. rewrite Hgd, Hgm.
      split_and!; auto; done. }
  unfold ret at 1. unfold bind at 1. unfold visitedUrls_add at 1.
  unfold bind at 1.
  set (st2 := {| clock := clock st1; visitedUrls := {[u]} ∪ visitedUrls st1;
                 downloadedAssets := downloadedAssets st1; assetMap := assetMap st1;
                 gets := gets st1; files := files st1; console := console st1 |}).
  change (λ st0 : State, (st0, Ok doc)) with (@ret Document doc).
  assert (∃ st3 doc1 new,
    (if downloadAssets this then processAssets this doc u else ret doc) st2
      = (st3, Ok doc1)
    ∧ console st3 = console st ++ LogCrawling depth u :: new
    ∧ Forall asset_log new
    ∧ visitedUrls st3 = {[u]} ∪ visitedUrls st
    ∧ (store_ok st → store_ok st3 ∧ assetMap st ⊆ assetMap st3))
    as (st3 & doc1 & new & -> & Hc3 & Hf3 & Hv3 & Hs3).
  { destruct (downloadAssets this).
    - destruct (processAssets_spec doc u st2) as (st3 & doc1 & -> & [Hv (new & Hc & Hf) Hs]).
      exists st3, doc1, new. split; [done |]. subst st2. simpl in *.
      rewrite Hc, Hgc, Hv, Hgv, <- app_assoc. split_and!; auto.
      intros Hok. rewrite <- Hgm. apply Hs. unfold store_ok in *. simpl.
      by rewrite Hgd, Hgm.
    - exists st2, doc, []. unfold ret. subst st2. simpl.
      rewrite Hgc, Hgv. unfold store_ok. simpl. rewrite Hgd, Hgm.
      split_and!; auto. }
  assert (∀ (m : M (list string)),
    (∀ s, console (m s).1 = console s ∧ visitedUrls (m s).1 = visitedUrls s
          ∧ downloadedAssets (m s).1 = downloadedAssets s
          ∧ assetMap (m s).1 = assetMap s) →
    ∃ st' r new',
      m st3 = (st', r)
      ∧ console st' = console st ++ LogCrawling depth u :: new'
      ∧ Forall asset_log new'
      ∧ (visitedUrls st' = visitedUrls st ∨ visitedUrls st' = {[u]} ∪ visitedUrls st)
      ∧ (∀ links, r = Ok links → visitedUrls st' = {[u]} ∪ visitedUrls st)
      ∧ (store_ok st → store_ok st' ∧ assetMap st ⊆ assetMap st')) as Hrest.
  { intros m Hm. destruct (Hm st3) as (Hc & Hv & Hd & Ha).
    destruct (m st3) as [st' r]. simpl in *. exists st', r, new.
    split; [done |]. rewrite Hc, Hv. unfold store_ok in *. rewrite Hd, Ha.
    split_and!; auto. }
  apply Hrest. clear. intros s.
  destruct (rewriteLinks this doc1 u) as [d [[]|e]]; munfold;
    [| by repeat split].
  destruct (getFilename u) as [fname|e]; simpl; [| by repeat split].
  mcase; simpl; by repeat split.
Qed.

Lemma crawlPage_guard_false u depth st :
  (depth >? maxDepth this) || bool_decide (u ∈ visitedUrls st) = false →
  depth ≤ maxDepth this ∧ u ∉ visitedUrls st.
Proof.
  intros [Hd Hv]%orb_false_iff. apply bool_decide_eq_false in Hv. split; [lia | done].
Qed.

(** Every call of [crawlPage] that returns, returns normally, and moves
    the state by a [crawl_step]. *)
Lemma crawlPage_spec fuel : ∀ u depth st st' r,
  crawlPage this fuel u depth st = Some (st', r) →
  r = Ok tt ∧ crawl_step this depth st st'.
Proof.
  induction fuel as [|fuel IH]; intros u depth st st' r; simpl; [done |].
  destruct (_ || _) eqn:Hguard.
  { intros [= <- <-]. split; [done | apply crawl_step_refl]. }
  apply crawlPage_guard_false in Hguard as [Hd Hv].
  destruct (crawlPage_visit_spec u depth st)
    as (st1 & r1 & new & -> & Hc & Hf & Hvis & Hok & Hstore).
  assert (crawl_step this depth st st1) as Hstep1.
  { split; [destruct Hvis as [-> | ->]; [done | apply union_subseteq_r] | | done].
    eexists. split; [exact Hc |]. constructor; [simpl; split; [lia | done] |].
    eapply Forall_impl; [exact Hf |]. intros []; done. }
  destruct r1 as [links|e]; simpl.
  - intros Hbody.
    assert (∃ st2 r2, crawl_links (λ link, crawlPage this fuel link (depth + 1)) links st1
                      = Some (st2, r2)) as (st2 & r2 & Hlinks).
    { destruct (crawl_links _ links st1) as [[st2 r2]|]; [eauto | done]. }
    destruct (crawl_links_spec (crawl_step this (depth + 1)) _
                (crawl_step_refl this (depth + 1))
                (crawl_step_trans this (depth + 1))
                (λ l s s' r, IH l (depth + 1) s s' r) _ _ _ _ Hlinks) as [-> Hstep2].
    rewrite Hlinks in Hbody. simpl in Hbody.
    assert (st2 = st' ∧ Ok tt = r) as [<- <-] by (by inversion Hbody).
    split; [done |].
    eapply crawl_step_trans; [exact Hstep1 |].
    eapply crawl_step_weaken; [| exact Hstep2]. lia.
  - intros [= <- <-]. split; [done |].
    eapply crawl_step_trans; [exact Hstep1 |].
    split; simpl; [done | | done].
    exists [LogCrawlError u e]. split; [done | by repeat constructor].
Qed.

(** With enough fuel every call returns. *)
Lemma crawlPage_returns fuel : ∀ u depth st,
  (Z.to_nat (maxDepth this + 1 - depth) < fuel)%nat →
  ∃ st', crawlPage this fuel u depth st = Some (st', Ok tt).
Proof.
  induction fuel as [|fuel IH]; intros u depth st Hfuel; [lia |]. simpl.
  destruct (_ || _) eqn:Hguard; [eauto |].
  apply crawlPage_guard_false in Hguard as [Hd Hv].
  destruct (crawlPage_visit this u depth st) as [st1 [links|e]]; simpl; [| eauto].
  destruct (crawl_links_returns (λ link, crawlPage this fuel link (depth + 1))) with
    (links := links) (s := st1) as [st2 ->]; [| simpl; eauto].
  intros l s. apply IH. lia.
Qed.

End Frames.

(** ** File names of pages *)

Lemma endsWith_slash_nonempty p : Js.endsWith p "/" = true → p ≠ EmptyString.
Proof. by intros He ->. Qed.

(** C4: [getFilename] maps a URL by its path: the root path ([/] or
    empty) to [index.html]; a path ending in [/] to that path followed by
    [index.html]; a path whose last segment has no extension to the path
    followed by [.html]; any other path to itself without its first
    character, the leading separator.  The page at
    [http://site.test/about] is named [/about.html] and is written as
    [about.html] in the output directory. *)
Theorem C4_getFilename_cases :
  (∀ (W : World) (u : string) (o : URL),
     URL_new u None = Some o →
     let p := pathname o in
     ((p = "/" ∨ p = EmptyString) → getFilename u = Ok "index.html")
     ∧ (p ≠ "/" → Js.endsWith p "/" = true →
        getFilename u = Ok (p +:+ "index.html"))
     ∧ (p ≠ EmptyString → Js.endsWith p "/" = false →
        Path.extname p = EmptyString →
        getFilename u = Ok (p +:+ ".html"))
     ∧ (p ≠ EmptyString → Js.endsWith p "/" = false →
        Path.extname p ≠ EmptyString →
        getFilename u = Ok (Js.substring1 p)
        ∧ (Js.startsWith p "/" = true → p = "/" +:+ Js.substring1 p)))
  ∧ @getFilename Scenario.about_world "http://site.test/about" = Ok "/about.html"
  ∧ Scenario.files_written Scenario.about_world
      (Scenario.options_for "http://site.test/about")
    = Some ["cloned-site/about.html"].
Proof.
  split; [| split; reflexivity].
  intros W u o Hu p. unfold getFilename, getFilename_of_pathname. rewrite Hu.
  fold p. split_and!.
  - intros Hroot. by rewrite bool_decide_eq_true_2.
  - intros Hne Hends. pose proof (endsWith_slash_nonempty _ Hends).
    rewrite bool_decide_eq_false_2 by tauto. by rewrite Hends.
  - intros Hne Hends Hext.
    rewrite bool_decide_eq_false_2 by (intros [-> | ->]; done).
    by rewrite Hends, Hext.
  - intros Hne Hends Hext.
    rewrite bool_decide_eq_false_2 by (intros [-> | ->]; done).
    rewrite Hends. destruct (Path.extname p) eqn:He; [done |]. simpl.
    split; [done |]. destruct p as [|c p']; [done |]. simpl.
    unfold Js.startsWith. simpl.
    destruct (Ascii.ascii_dec "/" c) as [<- | ?]; [done |].
    by destruct c as [[] [] [] [] [] [] [] []].
Qed.

(** An instance of C4: the four branches at the address
    [http://site.test/docs/guide], whose path has no extension. *)
Lemma C4_getFilename_cases_witness :
  @getFilename Scenario.about_world "http://site.test/docs/guide"
  = Ok "/docs/guide.html".
Proof.
  refine (proj1 (proj2 (proj2 (proj1 C4_getFilename_cases Scenario.about_world
            "http://site.test/docs/guide"
            {| href := "http://site.test/docs/guide"; hostname := "site.test";
               pathname := "/docs/guide" |} _))) _ _ _);
    [reflexivity | done | reflexivity | reflexivity].
Defined.

(** C5: [getFilename] applied to its own output, read as a path, does not
    give the output back.  For [http://site.test/about] the first
    application yields [/about.html]; the second, on the path
    [/about.html] (or on the address [http://site.test/about.html] that
    the output denotes on the site), yields [about.html]: the branches
    that append [index.html] or [.html] keep the leading separator that
    the last branch removes. *)
Theorem C5_getFilename_not_idempotent :
  @getFilename Scenario.about_world "http://site.test/about" = Ok "/about.html"
  ∧ getFilename_of_pathname "/about.html" = "about.html"
  ∧ (href <$> TestWorld.parse "/about.html" (Some "http://site.test/about")
     = Some "http://site.test/about.html"
     ∧ @getFilename Scenario.about_world "http://site.test/about.html" = Ok "about.html")
  ∧ getFilename_of_pathname (getFilename_of_pathname "/about")
    ≠ getFilename_of_pathname "/about".
Proof.
  split_and!; [reflexivity | reflexivity | reflexivity | reflexivity |].
  vm_compute. discriminate.
Qed.

(** A path that has an extension and does not end in a separator is
    returned without its first character and with nothing appended. *)
Lemma getFilename_keeps_extension p :
  Js.endsWith p "/" = false → Path.extname p ≠ EmptyString →
  getFilename_of_pathname p = Js.substring1 p.
Proof.
  intros Hends Hext. unfold getFilename_of_pathname.
  rewrite bool_decide_eq_false_2 by (intros [-> | ->]; done).
  rewrite Hends. by destruct (Path.extname p).
Qed.

(** ** Internal links *)

Section Links.

Context `{World}.
Variable this : Cloner.

Lemma set_attr_other (doc : Document) i j name v :
  i ≠ j → set_attr doc j name v !! i = doc !! i.
Proof.
  intros Hij. unfold set_attr. destruct (doc !! j); [| done].
  by apply list_lookup_insert_ne.
Qed.

(** The loop of [rewriteLinks] leaves alone every element that is not an
    anchor with an internal [href]. *)
Lemma rewriteLinks_each_other pageUrl els : ∀ (doc : Document) i el,
  doc !! i = Some el →
  (∀ h, attr_lookup (attrs el) "href" = Some h → isInternalLink this h pageUrl = false) →
  (rewriteLinks_each this pageUrl els doc).1 !! i = Some el.
Proof.
  induction els as [|j els IH]; intros doc i el Hi Hext; simpl; [done |].
  destruct (doc !! j ≫= _) as [h|] eqn:Hj; [| by apply IH].
  destruct (isInternalLink this h pageUrl) eqn:Hint; [| by apply IH].
  destruct (URL_new h (Some pageUrl)) as [u|]; [| done].
  destruct (getFilename (href u)) as [lf|e]; [| done].
  apply IH; [| done].
  destruct (decide (i = j)) as [-> | Hne]; [| by rewrite set_attr_other].
  rewrite Hi in Hj. simpl in Hj. apply Hext in Hj. congruence.
Qed.

End Links.

(** C7: [isInternalLink] is false for an empty [href] and for one that
    starts with [#], [mailto:] or [tel:]; it is false, not an exception,
    when the [href] cannot be resolved against the base; otherwise it tells
    whether the resolved host name is the root's.  [rewriteLinks] does not
    change an element whose [href] is not internal: the anchor to
    [https://other.example/x] stays as it is. *)
Theorem C7_isInternalLink_and_external_links :
  (∀ (W : World) (this : Cloner) (h base : string),
     (h = EmptyString ∨ Js.startsWith h "#" = true ∨ Js.startsWith h "mailto:" = true
      ∨ Js.startsWith h "tel:" = true) →
     isInternalLink this h base = false)
  ∧ (∀ (W : World) (this : Cloner) (h base : string),
       URL_new h (Some base) = None → isInternalLink this h base = false)
  ∧ (∀ (W : World) (this : Cloner) (h base : string) (u : URL),
       h ≠ EmptyString → Js.startsWith h "#" = false →
       Js.startsWith h "mailto:" = false → Js.startsWith h "tel:" = false →
       URL_new h (Some base) = Some u →
       isInternalLink this h base = bool_decide (hostname u = hostname (baseUrl this)))
  ∧ (∀ (W : World) (this : Cloner) (doc : Document) (pageUrl : string) i el,
       doc !! i = Some el →
       (∀ h, attr_lookup (attrs el) "href" = Some h →
             isInternalLink this h pageUrl = false) →
       (rewriteLinks this doc pageUrl).1 !! i = Some el)
  ∧ @isInternalLink LinkScenario.W LinkScenario.this
      "https://other.example/x" "http://site.test/" = false
  ∧ @rewriteLinks LinkScenario.W LinkScenario.this LinkScenario.page "http://site.test/"
    = (LinkScenario.page, Ok tt).
Proof.
  split_and!; try reflexivity.
  - intros W this h base Hh. unfold isInternalLink.
    destruct Hh as [-> | [-> | [-> | ->]]]; simpl; by rewrite ?orb_true_r.
  - intros W this h base Hu. unfold isInternalLink. rewrite Hu. by destruct (_ || _).
  - intros W this h base u Hne H1 H2 H3 Hu. unfold isInternalLink.
    rewrite H1, H2, H3, Hu. by destruct h.
  - intros W this doc pageUrl i el Hi Hext. unfold rewriteLinks.
    by apply rewriteLinks_each_other.
Qed.

(** An instance of C7 in the scenario above: each hypothesis holds there. *)
Lemma C7_isInternalLink_and_external_links_witness :
  @isInternalLink LinkScenario.W LinkScenario.this "mailto:a@site.test" "http://site.test/" = false
  ∧ @isInternalLink LinkScenario.W LinkScenario.this "about" "not a base" = false
  ∧ @isInternalLink LinkScenario.W LinkScenario.this "/about" "http://site.test/" = true
  ∧ (@rewriteLinks LinkScenario.W LinkScenario.this LinkScenario.page "http://site.test/").1 !! 0%nat
    = Some {| tag := "a"; attrs := [("href", "https://other.example/x")] |}.
Proof.
  pose proof C7_isInternalLink_and_external_links as (Ha & Hb & Hc & Hd & _).
  split_and!.
  - apply (Ha LinkScenario.W). right. right. left. reflexivity.
  - apply (Hb LinkScenario.W). reflexivity.
  - rewrite (Hc LinkScenario.W LinkScenario.this "/about" "http://site.test/"
               {| href := "http://site.test/about"; hostname := "site.test";
                  pathname := "/about" |}); done.
  - apply (Hd LinkScenario.W); [reflexivity |].
    intros h [= <-]. reflexivity.
Defined.

(** ** Inline background images *)

(** C8: an element whose inline style gives the image with the shorthand
    [background: url(/bg.jpg)] is selected by [processAssets] but its
    pattern accepts only the long form, so no asset is recorded for it,
    nothing is requested and the style is left as it was.  The long form
    [background-image: url(/bg.jpg)] in the same place is captured with
    category [image] and rewritten to
    [background-image: url('assets/image/bg.jpg')], the rest of the style
    unchanged. *)
Theorem C8_background_shorthand_not_captured :
  Forall (λ el, sel_background el = true) StyleScenario.shorthand
  ∧ scan_assets StyleScenario.shorthand = []
  ∧ StyleScenario.processed StyleScenario.shorthand = (Ok StyleScenario.shorthand, [])
  ∧ scan_assets StyleScenario.long_form
    = [ {| element := 0%nat; attr := "style"; url := "/bg.jpg"; type := "image";
           isStyleAttribute := true;
           originalStyle := "color: red; background-image: url(/bg.jpg); margin: 0" |} ]
  ∧ StyleScenario.processed StyleScenario.long_form
    = (Ok [ {| tag := "div";
               attrs := [("style",
                 "color: red; background-image: url('assets/image/bg.jpg'); margin: 0")] |} ],
       ["http://site.test/bg.jpg"]).
Proof.
  split_and!; [| reflexivity | reflexivity | reflexivity | reflexivity].
  repeat constructor.
Qed.

(** Only the first match of a style is captured and replaced. *)
Example scan_background_first_match_only :
  url <$> scan_assets
    [ {| tag := "div";
         attrs := [("style", "background-image: url(/a.png); background-image: url(/b.png)")] |} ]
  = ["/a.png"].
Proof. reflexivity. Qed.

(** ** Names of downloaded assets *)

Lemma guessExtension_table :
  guessExtension (Some "text/css") = JsStr ".css"
  ∧ guessExtension (Some "text/javascript") = JsStr ".js"
  ∧ guessExtension (Some "application/javascript") = JsStr ".js"
  ∧ guessExtension (Some "image/jpeg") = JsStr ".jpg"
  ∧ guessExtension (Some "image/png") = JsStr ".png"
  ∧ guessExtension (Some "image/gif") = JsStr ".gif"
  ∧ guessExtension (Some "image/svg+xml") = JsStr ".svg"
  ∧ guessExtension (Some "image/webp") = JsStr ".webp"
  ∧ guessExtension (Some "text/css; charset=utf-8") = JsStr ".css"
  ∧ guessExtension None = JsStr EmptyString.
Proof. split_and!; reflexivity. Qed.

(** The asset [/img/logo] served as [image/png] is saved as
    [assets/image/logo.png]. *)
Example asset_logo_png :
  AssetScenario.saved "image/png" "img"
  = (["cloned-site/assets/image/logo.png"],
     [("http://site.test/img/logo", "assets/image/logo.png")]).
Proof. reflexivity. Qed.

(** A header value that is not a media type but names a member that the
    table object inherits: [guessExtension] returns the member, and the
    saved name is [logo] followed by its printed form. *)
Example guessExtension_inherited_key :
  mimeToExt !! "constructor" = None
  ∧ guessExtension (Some "constructor") = JsProtoMember "constructor"
  ∧ AssetScenario.saved "constructor" "img"
    = (["cloned-site/assets/image/logofunction Object() { [native code] }"],
       [("http://site.test/img/logo",
         "assets/image/logofunction Object() { [native code] }")]).
Proof. split_and!; reflexivity. Qed.

(** ** What one call of [downloadAsset] does *)

Section DownloadAsset.

Context `{World}.
Variable this : Cloner.

(** A reference to an address of the store: no request, no file, the
    state is untouched and the stored path is used. *)
Lemma downloadAsset_hit asset pageUrl doc st abs p :
  URL_new (url asset) (Some pageUrl) = Some abs →
  href abs ∈ downloadedAssets st →
  assetMap st !! href abs = Some p →
  downloadAsset this asset pageUrl doc st = (st, Ok (updateAssetReference asset p doc)).
Proof.
  intros Habs Hin Hp. unfold downloadAsset, try_catch, downloadAsset_try.
  munfold. rewrite Habs. simpl. rewrite bool_decide_eq_true_2 by done.
  by rewrite Hp.
Qed.

(** A reference to an address outside the store: either the download
    succeeds, with one request, one file and one new entry, or the
    store, the files and the document stay as they were. *)
Lemma downloadAsset_miss asset pageUrl doc st abs :
  URL_new (url asset) (Some pageUrl) = Some abs →
  href abs ∉ downloadedAssets st →
  let res := downloadAsset this asset pageUrl doc st in
  (∃ r u,
      http_get (clock st) (href abs) = Some r
      ∧ URL_new (href abs) None = Some u
      ∧ let p := asset_relativePath this (type asset) (pathname u) (content_type r)
                   (Date_now (S (clock st))) in
        assetMap res.1 = <[href abs := p]> (assetMap st)
        ∧ downloadedAssets res.1 = {[href abs]} ∪ downloadedAssets st
        ∧ files res.1
          = files st ++ [(asset_localFilePath this (type asset) (pathname u)
                            (content_type r) (Date_now (S (clock st))), data r)]
        ∧ gets res.1 = gets st ++ [href abs]
        ∧ res.2 = Ok (updateAssetReference asset p doc))
  ∨ (assetMap res.1 = assetMap st
     ∧ downloadedAssets res.1 = downloadedAssets st
     ∧ files res.1 = files st
     ∧ (∃ e, console res.1
             = console st ++ [LogDownloading (href abs); LogAssetError (url asset) e])
     ∧ res.2 = Ok doc).
Proof.
  intros Habs Hout. unfold downloadAsset, try_catch, downloadAsset_try.
  munfold. rewrite Habs. simpl. rewrite bool_decide_eq_false_2 by done.
  destruct (http_get (clock st) (href abs)) as [r|] eqn:Hr; simpl.
  2:{ right. split_and!; try done. eexists. by rewrite <- app_assoc. }
  destruct (URL_new (href abs) None) as [u|] eqn:Hu; simpl.
  2:{ right. split_and!; try done. eexists. by rewrite <- app_assoc. }
  destruct (fs_ensureDir_ok _ _); simpl.
  2:{ right. split_and!; try done. eexists. by rewrite <- app_assoc. }
  destruct (fs_writeFile_ok _ _); simpl.
  2:{ right. split_and!; try done. eexists. by rewrite <- app_assoc. }
  left. exists r, u. split_and!; done.
Qed.

(** A failed attempt: whenever the [try] block throws, the document and
    the store are as before the call. *)
Lemma downloadAsset_failure asset pageUrl doc st st1 e :
  downloadAsset_try this asset pageUrl doc st = (st1, Throw e) →
  let res := downloadAsset this asset pageUrl doc st in
  res.2 = Ok doc
  ∧ downloadedAssets res.1 = downloadedAssets st
  ∧ assetMap res.1 = assetMap st
  ∧ visitedUrls res.1 = visitedUrls st
  ∧ files res.1 = files st
  ∧ console res.1 = console st1 ++ [LogAssetError (url asset) e].
Proof.
  unfold downloadAsset, try_catch. intros Htry. rewrite Htry. simpl.
  revert Htry. unfold downloadAsset_try. munfold. mcase; intros [= <- <-]; done.
Qed.

End DownloadAsset.

(** ** Names of downloaded assets, continued *)







(** ** The base name of a path *)

Lemma chars_rev_app s t :
  Js.chars (String.rev_app s t) = rev (Js.chars s) ++ Js.chars t.
Proof.
  revert t. induction s as [|c s IH]; intros t; simpl; [done |].
  rewrite IH. simpl. by rewrite <- app_assoc.
Qed.

Lemma chars_rev s : Js.chars (String.rev s) = rev (Js.chars s).
Proof. unfold String.rev. by rewrite chars_rev_app, app_nil_r. Qed.

Lemma chars_length s : length (Js.chars s) = String.length s.
Proof. induction s as [|c s IH]; simpl; [done | by rewrite IH]. Qed.

Lemma chars_nil s : Js.chars s = [] → s = EmptyString.
Proof. by destruct s. Qed.

(** The last character of a path that does not end in a separator. *)
Lemma endsWith_slash_false p :
  p ≠ EmptyString → Js.endsWith p "/" = false →
  ∃ c rest, rev (Js.chars p) = c :: rest ∧ Ascii.eqb c "/" = false.
Proof.
  intros Hne Hends. unfold Js.endsWith in Hends.
  destruct (rev (Js.chars p)) as [|c rest] eqn:Hrev.
  { apply (f_equal (@rev ascii)) in Hrev. rewrite rev_involutive in Hrev.
    by apply chars_nil in Hrev. }
  exists c, rest. split; [done |].
  assert (String.rev p = String c (Js.of_chars rest)) as Hp.
  { rewrite <- (String.string_of_list_ascii_of_string (String.rev p)).
    change (String.list_ascii_of_string (String.rev p)) with (Js.chars (String.rev p)).
    by rewrite chars_rev, Hrev. }
  rewrite Hp in Hends. change (String.rev "/") with "/" in Hends.
  destruct (Ascii.eqb_spec c "/") as [-> | Hc]; [| done].
  assert (String.prefix "/" (String "/" (Js.of_chars rest)) = true) as Htrue.
  { apply String.prefix_correct. simpl. by destruct (Js.of_chars rest). }
  congruence.
Qed.

(** Once the scan of [basename] has seen the end of the last segment, it
    keeps it, and the start it settles on is a position of the text still
    to scan or the start it had. *)
Lemma base_loop_seen rest : ∀ st,
  Path.b_end st ≠ -1 → Path.b_matchedSlash st = false → 0 ≤ Path.b_start st →
  let st' := Path.base_loop rest (Z.of_nat (length rest) - 1) st in
  Path.b_end st' = Path.b_end st
  ∧ 0 ≤ Path.b_start st' ≤ Z.max (Path.b_start st) (Z.of_nat (length rest)).
Proof.
  induction rest as [|c rest IH]; intros st He Hm Hs.
  { simpl. lia. }
  cbn [Path.base_loop].
  assert (Z.of_nat (length (c :: rest)) = Z.of_nat (length rest) + 1) as Hlen
    by (cbn [length]; lia).
  destruct (Ascii.eqb c "/").
  - rewrite Hm. cbn [negb Path.b_end Path.b_start]. lia.
  - destruct (Z.eqb_spec (Path.b_end st) (-1)) as [? | _]; [done |].
    replace (Z.of_nat (length (c :: rest)) - 1 - 1) with (Z.of_nat (length rest) - 1)
      by lia.
    destruct (IH st He Hm Hs) as [IH1 IH2]. split; [done | lia].
Qed.

Lemma substring_nonempty s : ∀ n m,
  (n < String.length s)%nat → (0 < m)%nat → String.substring n m s ≠ EmptyString.
Proof.
  induction s as [|c s IH]; intros n m Hn Hm; simpl in *; [lia |].
  destruct n as [|n].
  - destruct m; [lia | done].
  - apply IH; lia.
Qed.

(** The base name is empty only for the empty path and for paths that end
    in a separator. *)
Lemma basename_nonempty p :
  p ≠ EmptyString → Js.endsWith p "/" = false → Path.basename p ≠ EmptyString.
Proof.
  intros Hne Hends.
  destruct (endsWith_slash_false p Hne Hends) as (c & rest & Hrev & Hc).
  assert (Z.of_nat (String.length p) = Z.of_nat (length rest) + 1) as Hlen.
  { rewrite <- chars_length, <- length_rev, Hrev. simpl. lia. }
  unfold Path.basename. rewrite Hrev. cbn [Path.base_loop]. rewrite Hc.
  cbn [Path.b_start Path.b_end Path.b_matchedSlash]. simpl Z.eqb. cbn iota.
  replace (Z.of_nat (String.length p) - 1 - 1) with (Z.of_nat (length rest) - 1) by lia.
  match goal with
  | |- context [Path.base_loop rest _ ?st] =>
      destruct (base_loop_seen rest st) as [He Hs]; [simpl; lia | done | simpl; lia |];
      set (st' := Path.base_loop rest _ st) in *
  end.
  simpl in He, Hs.
  destruct (Z.eqb_spec (Path.b_end st') (-1)) as [Heq | _]; [lia |].
  rewrite He. unfold Js.slice. apply substring_nonempty; lia.
Qed.

Lemma asset_filename_clock urlPath now1 now2 :
  Path.basename urlPath ≠ EmptyString →
  asset_filename urlPath now1 = asset_filename urlPath now2.
Proof. unfold asset_filename. by destruct (Path.basename urlPath). Qed.

(** The recorded path of a download that succeeded on an address outside
    a consistent store. *)
Lemma downloadAsset_recorded `{World} this asset pageUrl doc st abs p :
  store_ok st →
  URL_new (url asset) (Some pageUrl) = Some abs →
  href abs ∉ downloadedAssets st →
  assetMap (downloadAsset this asset pageUrl doc st).1 !! href abs = Some p →
  ∃ r u,
    http_get (clock st) (href abs) = Some r
    ∧ URL_new (href abs) None = Some u
    ∧ p = asset_relativePath this (type asset) (pathname u) (content_type r)
            (Date_now (S (clock st))).
Proof.
  intros Hok Habs Hout Hp.
  destruct (downloadAsset_miss this asset pageUrl doc st abs Habs Hout)
    as [(r & u & Hr & Hu & Hm & _) | (Hm & _)].
  - exists r, u. split_and!; [done | done |].
    rewrite Hm, lookup_insert_eq in Hp. congruence.
  - rewrite Hm in Hp. rewrite <- Hok in Hout.
    apply not_elem_of_dom in Hout. congruence.
Qed.

(** C10, as stated, fails: the recorded path also depends on the category
    of the reference that triggers the download.  The same address, served
    with the same content type, is recorded under [assets/image] when an
    [img] refers to it and under [assets/js] when a [script] does. *)
Lemma C10_category_counterexample :
  ¬ (∀ (W : World) (this : Cloner) (asset1 asset2 : Asset) (page1 page2 : string)
       (doc1 doc2 : Document) (st1 st2 : State) (abs1 abs2 u : URL) (p1 p2 : string),
       store_ok st1 → store_ok st2 →
       URL_new (url asset1) (Some page1) = Some abs1 →
       URL_new (url asset2) (Some page2) = Some abs2 →
       href abs1 = href abs2 →
       href abs1 ∉ downloadedAssets st1 → href abs2 ∉ downloadedAssets st2 →
       content_type <$> http_get (clock st1) (href abs1)
       = content_type <$> http_get (clock st2) (href abs2) →
       URL_new (href abs1) None = Some u →
       Path.basename (pathname u) ≠ EmptyString →
       assetMap (downloadAsset this asset1 page1 doc1 st1).1 !! href abs1 = Some p1 →
       assetMap (downloadAsset this asset2 page2 doc2 st2).1 !! href abs2 = Some p2 →
       p1 = p2).
Proof.
  intros Hclaim.
  pose (u := {| href := "http://site.test/img/logo"; hostname := "site.test";
                pathname := "/img/logo" |}).
  pose (a := λ ty, {| element := 0%nat; attr := "src"; url := "/img/logo"; type := ty;
                      isStyleAttribute := false; originalStyle := EmptyString |}).
  specialize (Hclaim (AssetScenario.W "image/png") LinkScenario.this
                (a "image") (a "js") "http://site.test/" "http://site.test/"
                (AssetScenario.page "img") (AssetScenario.page "script")
                initial_state initial_state u u u
                "assets/image/logo.png" "assets/js/logo.png").
  assert ("assets/image/logo.png" = "assets/js/logo.png") as Heq; [| discriminate Heq].
  apply Hclaim; try reflexivity.
  - simpl. apply not_elem_of_empty.
  - simpl. apply not_elem_of_empty.
  - vm_compute. discriminate.
Qed.

(** C10 (amended): the path recorded for a downloaded asset whose address
    has a non-empty base name is determined by the address, the content
    type of the response and the category of the reference: two downloads
    that agree on these record the same path, whatever the clock and the
    rest of the state.  Only for an empty base name is the file name
    [asset_] followed by the clock, and a path with an empty base name is
    empty or ends in a separator. *)
Theorem C10_recorded_path_deterministic :
  (∀ (W : World) (this : Cloner) (asset1 asset2 : Asset) (page1 page2 : string)
     (doc1 doc2 : Document) (st1 st2 : State) (abs1 abs2 u : URL) (p1 p2 : string),
     store_ok st1 → store_ok st2 →
     URL_new (url asset1) (Some page1) = Some abs1 →
     URL_new (url asset2) (Some page2) = Some abs2 →
     href abs1 = href abs2 →
     type asset1 = type asset2 →
     href abs1 ∉ downloadedAssets st1 → href abs2 ∉ downloadedAssets st2 →
     content_type <$> http_get (clock st1) (href abs1)
     = content_type <$> http_get (clock st2) (href abs2) →
     URL_new (href abs1) None = Some u →
     Path.basename (pathname u) ≠ EmptyString →
     assetMap (downloadAsset this asset1 page1 doc1 st1).1 !! href abs1 = Some p1 →
     assetMap (downloadAsset this asset2 page2 doc2 st2).1 !! href abs2 = Some p2 →
     p1 = p2)
  ∧ (∀ (urlPath : string) (now1 now2 : N),
       Path.basename urlPath ≠ EmptyString →
       asset_filename urlPath now1 = asset_filename urlPath now2)
  ∧ (∀ (urlPath : string) (now : N),
       Path.basename urlPath = EmptyString →
       asset_filename urlPath now = "asset_" +:+ pretty now
       ∧ (urlPath = EmptyString ∨ Js.endsWith urlPath "/" = true)).
Proof.
  split_and!.
  - intros W this asset1 asset2 page1 page2 doc1 doc2 st1 st2 abs1 abs2 u p1 p2
      Hok1 Hok2 Habs1 Habs2 Hhref Hty Hout1 Hout2 Hct Hu Hbase Hp1 Hp2.
    destruct (downloadAsset_recorded this asset1 page1 doc1 st1 abs1 p1 Hok1 Habs1 Hout1 Hp1)
      as (r1 & u1 & Hr1 & Hu1 & ->).
    destruct (downloadAsset_recorded this asset2 page2 doc2 st2 abs2 p2 Hok2 Habs2 Hout2 Hp2)
      as (r2 & u2 & Hr2 & Hu2 & ->).
    rewrite Hr1, Hr2 in Hct. simpl in Hct. injection Hct as Hct.
    rewrite <- Hhref in Hu2. rewrite Hu in Hu1, Hu2.
    injection Hu1 as <-. injection Hu2 as <-.
    unfold asset_relativePath, asset_localFilePath.
    rewrite Hty, Hct.
    by rewrite (asset_filename_clock (pathname u) (Date_now (S (clock st1)))
                  (Date_now (S (clock st2)))).
  - intros urlPath now1 now2. apply asset_filename_clock.
  - intros urlPath now Hbase. split.
    + unfold asset_filename. by rewrite Hbase.
    + destruct (decide (urlPath = EmptyString)) as [? | Hne]; [by left | right].
      destruct (Js.endsWith urlPath "/") eqn:Hends; [done |].
      by destruct (basename_nonempty urlPath Hne Hends).
Qed.

(** An instance of C10: [/img/logo], served as [image/png] and referred to
    by an [img], is recorded as [assets/image/logo.png] at two different
    times. *)
Lemma C10_recorded_path_deterministic_witness :
  ∃ p1 p2,
    assetMap (@downloadAsset (AssetScenario.W "image/png") LinkScenario.this
                {| element := 0%nat; attr := "src"; url := "/img/logo"; type := "image";
                   isStyleAttribute := false; originalStyle := EmptyString |}
                "http://site.test/" (AssetScenario.page "img") initial_state).1
      !! "http://site.test/img/logo" = Some p1
    ∧ assetMap (@downloadAsset (AssetScenario.W "image/png") LinkScenario.this
                  {| element := 0%nat; attr := "src"; url := "logo"; type := "image";
                     isStyleAttribute := false; originalStyle := EmptyString |}
                  "http://site.test/img/" (AssetScenario.page "img")
                  {| clock := 7%nat; visitedUrls := ∅; downloadedAssets := ∅;
                     assetMap := ∅; gets := []; files := []; console := [] |}).1
        !! "http://site.test/img/logo" = Some p2
    ∧ p1 = p2
    ∧ asset_filename "/img/logo" 1 = asset_filename "/img/logo" 2
    ∧ asset_filename "/" 5 = "asset_5".
Proof.
  pose proof C10_recorded_path_deterministic as (Hdet & Hclock & Hempty).
  pose (u := {| href := "http://site.test/img/logo"; hostname := "site.test";
                pathname := "/img/logo" |}).
  exists "assets/image/logo.png", "assets/image/logo.png".
  assert (∀ n, store_ok {| clock := n; visitedUrls := ∅; downloadedAssets := ∅;
                           assetMap := ∅; gets := []; files := []; console := [] |}) as Hok.
  { intros n. unfold store_ok. simpl. apply dom_empty_L. }
  split_and!.
  - reflexivity.
  - reflexivity.
  - apply (Hdet (AssetScenario.W "image/png") LinkScenario.this
             {| element := 0%nat; attr := "src"; url := "/img/logo"; type := "image";
                isStyleAttribute := false; originalStyle := EmptyString |}
             {| element := 0%nat; attr := "src"; url := "logo"; type := "image";
                isStyleAttribute := false; originalStyle := EmptyString |}
             "http://site.test/" "http://site.test/img/"
             (AssetScenario.page "img") (AssetScenario.page "img")
             initial_state
             {| clock := 7%nat; visitedUrls := ∅; downloadedAssets := ∅;
                assetMap := ∅; gets := []; files := []; console := [] |}
             u u u);
      [apply Hok | apply (Hok 7%nat) | reflexivity | reflexivity | reflexivity | reflexivity
      | simpl; apply not_elem_of_empty | simpl; apply not_elem_of_empty
      | reflexivity | reflexivity | vm_compute; discriminate
      | reflexivity | reflexivity].
  - apply Hclock. vm_compute. discriminate.
  - apply (Hempty "/" 5%N). reflexivity.
Defined.

(** ** The crawl *)

Section CrawlProperties.

Context `{World}.
Variable this : Cloner.

(** Every new page line of a call is at a depth between the depth of
    the call and [maxDepth]. *)
Lemma crawlPage_depth_bound fuel u depth st st' r :
  crawlPage this fuel u depth st = Some (st', r) →
  ∃ new, console st' = console st ++ new
         ∧ ∀ d v, LogCrawling d v ∈ new → depth ≤ d ≤ maxDepth this.
Proof.
  intros Hrun. destruct (crawlPage_spec this fuel _ _ _ _ _ Hrun) as [_ [_ (new & Hc & Hf) _]].
  exists new. split; [done |]. intros d v Hin.
  rewrite Forall_forall in Hf. by destruct (Hf _ Hin).
Qed.



Lemma dedup_subset seen l x : x ∈ dedup seen l → x ∈ l.
Proof.
  revert seen. induction l as [|y l IH]; intros seen; simpl; [done |].
  case_bool_decide.
  - intros Hx. right. by eapply IH.
  - intros [-> | Hx]%elem_of_cons; [left | right; by eapply IH].
Qed.



(** A page whose request fails: two lines on the console, nothing else. *)
Lemma crawlPage_fetch_failure fuel u depth st :
  depth ≤ maxDepth this → u ∉ visitedUrls st → http_get (clock st) u = None →
  ∃ st', crawlPage this (S fuel) u depth st = Some (st', Ok tt)
         ∧ visitedUrls st' = visitedUrls st
         ∧ downloadedAssets st' = downloadedAssets st
         ∧ assetMap st' = assetMap st
         ∧ files st' = files st
         ∧ gets st' = gets st ++ [u]
         ∧ console st'
           = console st ++ [LogCrawling depth u; LogCrawlError u "request failed"].
Proof.
  intros Hd Hv Hget. simpl.
  rewrite (proj2 (orb_false_iff _ _)); last first.
  { split; [lia | by apply bool_decide_eq_false]. }
  unfold crawlPage_visit. munfold. rewrite Hget. simpl.
  eexists. split; [reflexivity |]. simpl. by rewrite <- app_assoc.
Qed.

End CrawlProperties.

(** C6: no failure of a page or of an asset ends the crawl.  With the
    fuel of [fuel_for], every call of [crawlPage], the root call included,
    returns, and whenever it returns it returns normally.  A page whose
    request fails is reported on the console and not marked visited.  An
    asset whose download fails, in any of its steps, leaves the document,
    [downloadedAssets] and [assetMap] as they were; this is in particular
    so when the request for it fails. *)
Theorem C6_failures_are_absorbed :
  (∀ (W : World) (this : Cloner) (u : string) (depth : Z) (st : State),
     ∃ st', crawlPage this (fuel_for this depth) u depth st = Some (st', Ok tt))
  ∧ (∀ (W : World) (this : Cloner) fuel u depth st st' r,
       crawlPage this fuel u depth st = Some (st', r) → r = Ok tt)
  ∧ (∀ (W : World) (this : Cloner) fuel u depth st,
       depth ≤ maxDepth this → u ∉ visitedUrls st → http_get (clock st) u = None →
       ∃ st', crawlPage this (S fuel) u depth st = Some (st', Ok tt)
              ∧ visitedUrls st' = visitedUrls st
              ∧ console st'
                = console st ++ [LogCrawling depth u; LogCrawlError u "request failed"])
  ∧ (∀ (W : World) (this : Cloner) asset pageUrl doc st st1 e,
       downloadAsset_try this asset pageUrl doc st = (st1, Throw e) →
       let res := downloadAsset this asset pageUrl doc st in
       res.2 = Ok doc
       ∧ downloadedAssets res.1 = downloadedAssets st
       ∧ assetMap res.1 = assetMap st
       ∧ console res.1 = console st1 ++ [LogAssetError (url asset) e])
  ∧ (∀ (W : World) (this : Cloner) asset pageUrl doc st abs,
       URL_new (url asset) (Some pageUrl) = Some abs →
       href abs ∉ downloadedAssets st →
       http_get (clock st) (href abs) = None →
       let res := downloadAsset this asset pageUrl doc st in
       res.2 = Ok doc
       ∧ downloadedAssets res.1 = downloadedAssets st
       ∧ assetMap res.1 = assetMap st).
Proof.
  split_and!.
  - intros W this u depth st. apply crawlPage_returns. unfold fuel_for. lia.
  - intros W this fuel u depth st st' r Hrun.
    by destruct (crawlPage_spec this fuel _ _ _ _ _ Hrun).
  - intros W this fuel u depth st Hd Hv Hget.
    destruct (crawlPage_fetch_failure this fuel u depth st Hd Hv Hget)
      as (st' & Hrun & Hvis & _ & _ & _ & _ & Hcon).
    by exists st'.
  - intros W this asset pageUrl doc st st1 e Htry.
    destruct (downloadAsset_failure this asset pageUrl doc st st1 e Htry)
      as (Hr & Hd & Hm & _ & _ & Hc).
    done.
  - intros W this asset pageUrl doc st abs Habs Hout Hget.
    destruct (downloadAsset_miss this asset pageUrl doc st abs Habs Hout)
      as [(r & u & Hr & _) | (Hm & Hd & _ & _ & Hres)]; [congruence | done].
Qed.

(** An instance of C6 in a world without network: the root page fails, and
    so does the asset of an image. *)
Lemma C6_failures_are_absorbed_witness :
  (∃ st', @crawlPage CrawlScenario.offline LinkScenario.this 1 "http://site.test/" 0
            initial_state = Some (st', Ok tt)
          ∧ visitedUrls st' = ∅
          ∧ console st' = [LogCrawling 0 "http://site.test/";
                           LogCrawlError "http://site.test/" "request failed"])
  ∧ (let res := @downloadAsset CrawlScenario.offline LinkScenario.this
                  {| element := 0%nat; attr := "src"; url := "/img/logo"; type := "image";
                     isStyleAttribute := false; originalStyle := EmptyString |}
                  "http://site.test/" (AssetScenario.page "img") initial_state in
     res.2 = Ok (AssetScenario.page "img")
     ∧ downloadedAssets res.1 = ∅ ∧ assetMap res.1 = ∅).
Proof.
  pose proof C6_failures_are_absorbed as (_ & Hnormal & Hpage & Htry & Hasset).
  split.
  - destruct (Hpage CrawlScenario.offline LinkScenario.this 0%nat "http://site.test/" 0
                initial_state) as (st' & Hrun & Hvis & Hcon);
      [simpl; lia | simpl; apply not_elem_of_empty | reflexivity |].
    exists st'. split; [exact Hrun |].
    pose proof (Hnormal CrawlScenario.offline LinkScenario.this _ _ _ _ _ _ Hrun) as _.
    split; [exact Hvis | exact Hcon].
  - pose proof (Htry CrawlScenario.offline LinkScenario.this
                  {| element := 0%nat; attr := "src"; url := "/img/logo"; type := "image";
                     isStyleAttribute := false; originalStyle := EmptyString |}
                  "http://site.test/" (AssetScenario.page "img") initial_state
                  _ _ eq_refl) as _.
    refine (Hasset CrawlScenario.offline LinkScenario.this
              {| element := 0%nat; attr := "src"; url := "/img/logo"; type := "image";
                 isStyleAttribute := false; originalStyle := EmptyString |}
              "http://site.test/" (AssetScenario.page "img") initial_state
              {| href := "http://site.test/img/logo"; hostname := "site.test";
                 pathname := "/img/logo" |} _ _ _);
      [reflexivity | simpl; apply not_elem_of_empty | reflexivity].
Defined.

(** C3: the constructor replaces a configured [maxDepth] of zero by two,
    as it does an absent one, so a crawl configured with depth zero still
    fetches and writes the pages one and two links away from the root. *)
Theorem C3_maxDepth_zero_crawls_to_depth_two :
  (maxDepth <$> @new_WebsiteCloner CrawlScenario.W (CrawlScenario.options (Some 0)))
  = Some 2
  ∧ (λ r : State * outcome unit, (console r.1, (files r.1).*1, r.2))
      <$> CrawlScenario.run (Some 0)
    = Some ([LogCrawling 0 "http://site.test/index.html";
             LogDownloading "http://site.test/css/site.css";
             LogCrawling 1 "http://site.test/a.html";
             LogCrawling 2 "http://site.test/b.html"],
            ["cloned-site/assets/css/site.css"; "cloned-site/index.html";
             "cloned-site/a.html"; "cloned-site/b.html"],
            Ok tt).
Proof. split; reflexivity. Qed.

(** For the effective [maxDepth] the bound holds: a crawl from the root
    announces no page deeper than it; and a configured depth other than
    zero is the effective one. *)
Lemma crawl_depth_bound `{World} (this : Cloner) fuel st' r :
  crawlPage this fuel (this_url this) 0 initial_state = Some (st', r) →
  ∀ d v, LogCrawling d v ∈ console st' → 0 ≤ d ≤ maxDepth this.
Proof.
  intros Hrun d v Hin.
  destruct (crawlPage_depth_bound this _ _ _ _ _ _ Hrun) as (new & Hc & Hb).
  rewrite Hc in Hin. simpl in Hin. by eapply Hb.
Qed.

Lemma new_WebsiteCloner_maxDepth `{World} (o : Options) (this : Cloner) (n : Z) :
  new_WebsiteCloner o = Some this → opt_maxDepth o = Some n → n ≠ 0 →
  maxDepth this = n.
Proof.
  unfold new_WebsiteCloner. intros Hnew Hn Hne.
  destruct (URL_new (opt_url o) None); simpl in Hnew; [| done].
  injection Hnew as <-. simpl. rewrite Hn.
  by destruct (Z.eqb_spec n 0).
Qed.

Example crawl_depth_one :
  (λ r : State * outcome unit, (gets r.1, (files r.1).*1)) <$> CrawlScenario.run (Some 1)
  = Some (["http://site.test/index.html"; "http://site.test/css/site.css";
           "http://site.test/a.html"],
          ["cloned-site/assets/css/site.css"; "cloned-site/index.html";
           "cloned-site/a.html"]).
Proof. reflexivity. Qed.



(** Links are followed as rewritten: a link to [/] on the page
    [http://site.test/] becomes [index.html] and is fetched as
    [http://site.test/index.html], a different address, once. *)
Example link_to_root_is_followed_as_index_html :
  let W := TestWorld.world
             [ ("http://site.test/", Scenario.html "ROOT");
               ("http://site.test/index.html", Scenario.html "ROOT") ]
             [ ("ROOT", [CrawlScenario.anchor "/"]) ] in
  (this ← @new_WebsiteCloner W (Scenario.options_for "http://site.test/");
   r ← @clone W this (fuel_for this 0) initial_state;
   Some (gets r.1, (files r.1).*1))
  = Some (["http://site.test/"; "http://site.test/index.html"],
          ["cloned-site/index.html"; "cloned-site/index.html"]).
Proof. reflexivity. Qed.

(** C1: the store of downloaded assets.  The keys of [assetMap] are the
    members of [downloadedAssets] at the start, and every operation of the
    crawl keeps it so and keeps the entries there are.  A reference to an
    address of the store is rewritten with the stored path, without any
    request or file.  When a first reference to an address is downloaded,
    one request is made, one file written and one entry added; a second
    reference to it, on the same page or on a page crawled later, makes
    none and is rewritten with the same path.  On the site of
    [CrawlScenario] the style sheet, referred to twice by the first page
    and once by the second, is requested and written once. *)
Theorem C1_assets_are_downloaded_at_most_once :
  store_ok initial_state
  ∧ (∀ (W : World) (this : Cloner) asset pageUrl doc st,
       store_ok st →
       store_ok (downloadAsset this asset pageUrl doc st).1
       ∧ assetMap st ⊆ assetMap (downloadAsset this asset pageUrl doc st).1)
  ∧ (∀ (W : World) (this : Cloner) doc pageUrl st,
       store_ok st →
       store_ok (processAssets this doc pageUrl st).1
       ∧ assetMap st ⊆ assetMap (processAssets this doc pageUrl st).1)
  ∧ (∀ (W : World) (this : Cloner) fuel u depth st st' r,
       store_ok st → crawlPage this fuel u depth st = Some (st', r) →
       store_ok st' ∧ assetMap st ⊆ assetMap st')
  ∧ (∀ (W : World) (this : Cloner) asset pageUrl doc st abs,
       store_ok st →
       URL_new (url asset) (Some pageUrl) = Some abs →
       href abs ∈ downloadedAssets st →
       ∃ p, assetMap st !! href abs = Some p
            ∧ downloadAsset this asset pageUrl doc st
              = (st, Ok (updateAssetReference asset p doc)))
  ∧ (∀ (W : World) (this : Cloner) asset1 asset2 page1 page2 doc1 doc2 st st2 abs1 abs2,
       store_ok st →
       URL_new (url asset1) (Some page1) = Some abs1 →
       URL_new (url asset2) (Some page2) = Some abs2 →
       href abs1 = href abs2 →
       href abs1 ∉ downloadedAssets st →
       let res1 := downloadAsset this asset1 page1 doc1 st in
       href abs1 ∈ downloadedAssets res1.1 →
       store_ok st2 → assetMap res1.1 ⊆ assetMap st2 →
       ∃ p file,
         gets res1.1 = gets st ++ [href abs1]
         ∧ files res1.1 = files st ++ [file]
         ∧ assetMap st !! href abs1 = None
         ∧ assetMap res1.1 = <[href abs1 := p]> (assetMap st)
         ∧ res1.2 = Ok (updateAssetReference asset1 p doc1)
         ∧ downloadAsset this asset2 page2 doc2 st2
           = (st2, Ok (updateAssetReference asset2 p doc2)))
  ∧ (λ r : State * outcome unit, (gets r.1, files r.1, map_to_list (assetMap r.1)))
      <$> CrawlScenario.run (Some 1)
    = Some (["http://site.test/index.html"; "http://site.test/css/site.css";
             "http://site.test/a.html"],
            [("cloned-site/assets/css/site.css", "CSS");
             ("cloned-site/index.html",
              "<link rel=[stylesheet] href=[assets/css/site.css]><link rel=[stylesheet] href=[assets/css/site.css]><a href=[index.html]><a href=[a.html]>");
             ("cloned-site/a.html",
              "<link rel=[stylesheet] href=[assets/css/site.css]><a href=[b.html]>")],
            [("http://site.test/css/site.css", "assets/css/site.css")]).
Proof.
  split_and!; [| | | | | | reflexivity].
  - unfold store_ok. simpl. apply dom_empty_L.
  - intros W this asset pageUrl doc st Hok.
    by apply (downloadAsset_step this asset pageUrl doc st).
  - intros W this doc pageUrl st Hok.
    destruct (processAssets_spec this doc pageUrl st) as (st' & doc' & -> & Hstep).
    by apply Hstep.
  - intros W this fuel u depth st st' r Hok Hrun.
    destruct (crawlPage_spec this fuel _ _ _ _ _ Hrun) as [_ Hstep]. by apply Hstep.
  - intros W this asset pageUrl doc st abs Hok Habs Hin.
    rewrite <- Hok in Hin. apply elem_of_dom in Hin as [p Hp].
    exists p. split; [done |]. apply (downloadAsset_hit this _ _ _ _ abs); [done | | done].
    rewrite <- Hok. apply elem_of_dom. eauto.
  - intros W this asset1 asset2 page1 page2 doc1 doc2 st st2 abs1 abs2
      Hok Habs1 Habs2 Hhref Hout res1 Hin Hok2 Hsub.
    destruct (downloadAsset_miss this asset1 page1 doc1 st abs1 Habs1 Hout)
      as [(r & u & Hr & Hu & Hm & Hd & Hf & Hg & Hres) | (_ & Hd & _)].
    2:{ fold res1 in Hd. rewrite Hd in Hin. done. }
    fold res1 in Hm, Hd, Hf, Hg, Hres.
    eexists _, _. split_and!; [exact Hg | exact Hf | | exact Hm | exact Hres |].
    + apply not_elem_of_dom. by rewrite Hok.
    + apply (downloadAsset_hit this _ _ _ _ abs2); [done | |].
      * rewrite <- Hok2. apply elem_of_dom. exists (asset_relativePath this (type asset1)
          (pathname u) (content_type r) (Date_now (S (clock st)))).
        rewrite <- Hhref. eapply lookup_weaken; [| exact Hsub].
        rewrite Hm. apply lookup_insert_eq.
      * rewrite <- Hhref. eapply lookup_weaken; [| exact Hsub].
        rewrite Hm. apply lookup_insert_eq.
Qed.

(** An instance of C1: an image referred to from two pages of the site of
    [AssetScenario]. *)
Lemma C1_assets_are_downloaded_at_most_once_witness :
  let a := λ src, {| element := 0%nat; attr := "src"; url := src; type := "image";
                     isStyleAttribute := false; originalStyle := EmptyString |} in
  let W := AssetScenario.W "image/png" in
  let res1 := @downloadAsset W LinkScenario.this (a "/img/logo") "http://site.test/"
                (AssetScenario.page "img") initial_state in
  ∃ p file,
    gets res1.1 = ["http://site.test/img/logo"]
    ∧ files res1.1 = [file]
    ∧ assetMap res1.1 = {["http://site.test/img/logo" := p]}
    ∧ @downloadAsset W LinkScenario.this (a "logo") "http://site.test/img/"
        (AssetScenario.page "img") res1.1
      = (res1.1, Ok (updateAssetReference (a "logo") p (AssetScenario.page "img")))
    ∧ store_ok res1.1.
Proof.
  intros a W res1.
  pose proof C1_assets_are_downloaded_at_most_once
    as (Hinit & Hasset & _ & _ & _ & Htwice & _).
  pose (u := {| href := "http://site.test/img/logo"; hostname := "site.test";
                pathname := "/img/logo" |}).
  destruct (Hasset W LinkScenario.this (a "/img/logo") "http://site.test/"
              (AssetScenario.page "img") initial_state Hinit) as [Hok1 _].
  destruct (Htwice W LinkScenario.this (a "/img/logo") (a "logo")
              "http://site.test/" "http://site.test/img/"
              (AssetScenario.page "img") (AssetScenario.page "img")
              initial_state res1.1 u u)
    as (p & file & Hg & Hf & Hnone & Hm & Hres & Hsecond);
    [exact Hinit | reflexivity | reflexivity | reflexivity
    | simpl; apply not_elem_of_empty
    | vm_compute; reflexivity
    | exact Hok1 | reflexivity |].
  exists p, file. split_and!; [exact Hg | exact Hf | | exact Hsecond | exact Hok1].
  unfold res1. rewrite Hm. simpl. apply insert_empty.
Defined.

(** ** The pattern of inline background images *)

Lemma of_chars_app a b : Js.of_chars (a ++ b) = Js.of_chars a +:+ Js.of_chars b.
Proof. induction a as [|c a IH]; simpl; [done | by rewrite IH]. Qed.

Lemma of_chars_chars s : Js.of_chars (Js.chars s) = s.
Proof. apply String.string_of_list_ascii_of_string. Qed.

Lemma chars_of_chars l : Js.chars (Js.of_chars l) = l.
Proof. apply String.list_ascii_of_string_of_list_ascii. Qed.

Lemma strip_prefix_app p s rest :
  Regex.strip_prefix p s = Some rest → s = p ++ rest.
Proof.
  revert s. induction p as [|a p IH]; intros [|b s]; simpl; try done.
  - by intros [= <-].
  - by intros [= <-].
  - destruct (Ascii.eqb_spec a b) as [<- | ?]; [| done].
    intros Hs. by rewrite (IH _ Hs).
Qed.

Lemma skip_spaces_suffix s : Regex.skip_spaces s `suffix_of` s.
Proof.
  induction s as [|c s IH]; simpl; [done |].
  destruct (Js.is_space c); [by apply suffix_cons_r | done].
Qed.

Lemma opt_quote_suffix s : Regex.opt_quote s `suffix_of` s.
Proof.
  destruct s as [|c s]; simpl; [done |].
  destruct (Regex.is_quote c); [apply suffix_cons_r |]; done.
Qed.

Lemma take_class_spec s :
  s = (Regex.take_class s).1 ++ (Regex.take_class s).2
  ∧ Forall (λ c, Regex.in_class c = true) (Regex.take_class s).1.
Proof.
  induction s as [|c s [IH1 IH2]]; simpl; [by split |].
  destruct (Regex.in_class c) eqn:Hc; [| by split].
  destruct (Regex.take_class s) as [run rest]. simpl in *.
  split; [by rewrite <- IH1 | by constructor].
Qed.

(** A match at the head of a text: the text is the matched part followed by
    the rest, the matched part starts with the name of the property, and
    the capture is a non-empty run of class characters. *)
Lemma match_here_spec s cap rest :
  Regex.match_here s = Some (cap, rest) →
  ∃ mid, s = Js.chars "background-image:" ++ mid ++ rest
         ∧ cap ≠ []
         ∧ Forall (λ c, Regex.in_class c = true) cap.
Proof.
  unfold Regex.match_here.
  destruct (Regex.strip_prefix (Js.chars "background-image:") s) as [s1|] eqn:H1;
    cbn [mbind option_bind]; [| done].
  destruct (Regex.strip_prefix (Js.chars "url(") (Regex.skip_spaces s1)) as [s3|] eqn:H3;
    cbn [mbind option_bind]; [| done].
  destruct (take_class_spec (Regex.opt_quote s3)) as [Hsplit Hclass].
  destruct (Regex.take_class (Regex.opt_quote s3)) as [run s5]. cbn [fst snd] in *.
  destruct run as [|c run]; [done |].
  destruct (Regex.strip_prefix [")"%char] (Regex.opt_quote s5)) as [s7|] eqn:H7;
    cbn [mbind option_bind]; [| done].
  intros [= <- <-].
  apply strip_prefix_app in H1, H3, H7.
  destruct (skip_spaces_suffix s1) as [k1 Hk1].
  destruct (opt_quote_suffix s3) as [k3 Hk3].
  destruct (opt_quote_suffix s5) as [k5 Hk5].
  exists (k1 ++ Js.chars "url(" ++ k3 ++ (c :: run) ++ k5 ++ [")"%char]).
  split; [| done].
  rewrite H1, Hk1, H3, Hk3, Hsplit, Hk5, H7. by rewrite <- !app_assoc.
Qed.

Lemma search_spec s : ∀ acc m,
  Regex.search acc s = Some m →
  Js.of_chars (rev acc ++ s) = Regex.before m +:+ Regex.matched m +:+ Regex.after m
  ∧ Js.startsWith (Regex.matched m) "background-image:" = true
  ∧ Regex.capture m ≠ EmptyString
  ∧ Forall (λ c, Regex.in_class c = true) (Js.chars (Regex.capture m)).
Proof.
  induction s as [|c s IH]; intros acc m; simpl.
  - by destruct (Regex.match_here []) as [[cap rest]|] eqn:Hm; [apply match_here_spec in Hm as (? & ? & _) |].
  - destruct (Regex.match_here (c :: s)) as [[cap rest]|] eqn:Hm.
    + intros [= <-]. simpl.
      destruct (match_here_spec _ _ _ Hm) as (mid & Hs & Hne & Hclass).
      assert (take (length (c :: s) - length rest) (c :: s)
              = Js.chars "background-image:" ++ mid) as Htake.
      { rewrite Hs, app_assoc. rewrite length_app.
        replace (length (Js.chars "background-image:" ++ mid) + length rest - length rest)%nat
          with (length (Js.chars "background-image:" ++ mid)) by lia.
        by rewrite take_app_length. }
      change (S (length s)) with (length (c :: s)). rewrite Htake.
      split_and!.
      * rewrite Hs, !of_chars_app. done.
      * rewrite of_chars_app. unfold Js.startsWith.
        apply String.prefix_correct. simpl.
        by destruct (Js.of_chars mid).
      * intros Hcap. apply (f_equal Js.chars) in Hcap.
        rewrite chars_of_chars in Hcap. done.
      * by rewrite chars_of_chars.
    + intros Hrest. destruct (IH (c :: acc) m Hrest) as (H1 & H2 & H3 & H4).
      split_and!; try done. rewrite <- H1. simpl. by rewrite <- app_assoc.
Qed.

(** What a match of the pattern of [processAssets] consists of. *)
Lemma bgImageMatch_spec (style : string) (m : Regex.found) :
  Regex.bgImageMatch style = Some m →
  style = Regex.before m +:+ Regex.matched m +:+ Regex.after m
  ∧ Js.startsWith (Regex.matched m) "background-image:" = true
  ∧ Regex.capture m ≠ EmptyString
  ∧ Forall (λ c, Regex.is_quote c = false ∧ c ≠ ")"%char ∧ Js.is_space c = false)
           (Js.chars (Regex.capture m)).
Proof.
  unfold Regex.bgImageMatch. intros Hm.
  destruct (search_spec _ _ _ Hm) as (H1 & H2 & H3 & H4).
  split_and!; try done.
  - rewrite <- H1. simpl. by rewrite of_chars_chars.
  - eapply Forall_impl; [exact H4 |]. intros c Hc. unfold Regex.in_class in Hc.
    apply negb_true_iff in Hc.
    apply orb_false_iff in Hc as [Hc Hs]. apply orb_false_iff in Hc as [Hq Hp].
    split_and!; [done | | done]. by apply Ascii.eqb_neq.
Qed.

(** X1: a match of the pattern of [processAssets] splits the style into the
    text before it, the matched text and the text after it; the matched
    text starts with the name of the long property, and the captured
    address is not empty and contains no quote, closing parenthesis or
    space. *)
Theorem bgImageMatch_decomposes (style : string) (m : Regex.found) :
  Regex.bgImageMatch style = Some m →
  style = Regex.before m +:+ Regex.matched m +:+ Regex.after m
  ∧ Js.startsWith (Regex.matched m) "background-image:" = true
  ∧ Regex.capture m ≠ EmptyString
  ∧ Forall (λ c, Regex.is_quote c = false ∧ c ≠ ")"%char ∧ Js.is_space c = false)
           (Js.chars (Regex.capture m)).
Proof. apply bgImageMatch_spec. Qed.

Lemma bgImageMatch_decomposes_witness :
  let style := "color: red; background-image: url('/bg.jpg'); margin: 0" in
  let m := {| Regex.before := "color: red; ";
              Regex.matched := "background-image: url('/bg.jpg')";
              Regex.capture := "/bg.jpg";
              Regex.after := "; margin: 0" |} in
  Regex.bgImageMatch style = Some m
  ∧ style = Regex.before m +:+ Regex.matched m +:+ Regex.after m
  ∧ Regex.capture m ≠ EmptyString.
Proof.
  intros style m.
  assert (Regex.bgImageMatch style = Some m) as Hm by reflexivity.
  destruct (bgImageMatch_decomposes style m Hm) as (H1 & _ & H3 & _).
  split_and!; [exact Hm | exact H1 | exact H3].
Defined.

Lemma append_assoc (a b c : string) : (a +:+ b) +:+ c = a +:+ b +:+ c.
Proof.
  induction a as [|x a IH]; [done |].
  change ((String x a +:+ b) +:+ c) with (String x ((a +:+ b) +:+ c)).
  by rewrite IH.
Qed.

Lemma expand_plain t m :
  Js.includes_char (Js.of_chars t) "$"%char = false → Regex.expand t m = Js.of_chars t.
Proof.
  induction t as [|c t IH]; simpl; [done |].
  destruct (Ascii.eqb c "$"); [done |]. intros Ht. by rewrite IH.
Qed.

Lemma includes_char_app a b c :
  Js.includes_char (a +:+ b) c = Js.includes_char a c || Js.includes_char b c.
Proof.
  induction a as [|x a IH]; simpl; [done |].
  change (String x a +:+ b) with (String x (a +:+ b)). simpl.
  destruct (Ascii.eqb x c); [done | apply IH].
Qed.

Lemma backslashes_to_slashes_includes s c :
  c ≠ "/"%char → c ≠ "\"%char →
  Js.includes_char (Js.backslashes_to_slashes s) c = Js.includes_char s c.
Proof.
  intros H1 H2. induction s as [|a s IH]; simpl; [done |]. rewrite IH.
  destruct (Ascii.eqb_spec a "\") as [-> | Ha].
  - destruct (Ascii.eqb_spec "/" c) as [? | _]; [congruence |].
    by destruct (Ascii.eqb_spec "\" c) as [? | _]; [congruence |].
  - done.
Qed.

(** The address written into a document never contains a backslash. *)
Lemma backslashes_to_slashes_none s :
  Js.includes_char (Js.backslashes_to_slashes s) "\"%char = false.
Proof.
  induction s as [|a s IH]; simpl; [done |]. rewrite IH.
  destruct (Ascii.eqb_spec a "\") as [-> | Ha]; [done |].
  by destruct (Ascii.eqb_spec a "\").
Qed.

Lemma attr_lookup_update l name v name' :
  attr_lookup (attr_update l name v) name'
  = if decide (name' = name) then Some v else attr_lookup l name'.
Proof.
  induction l as [|[k w] l IH]; simpl.
  - destruct (decide (name = name')); destruct (decide (name' = name)); congruence.
  - destruct (decide (k = name)) as [-> | Hk]; simpl.
    + destruct (decide (name = name')); destruct (decide (name' = name)); congruence.
    + destruct (decide (k = name')) as [-> | Hk'].
      * by destruct (decide (name' = name)).
      * apply IH.
Qed.

Lemma set_attr_length (doc : Document) i name v :
  length (set_attr doc i name v) = length doc.
Proof. unfold set_attr. destruct (doc !! i); [apply length_insert | done]. Qed.

Lemma set_attr_same (doc : Document) i name v el :
  doc !! i = Some el →
  set_attr doc i name v !! i
  = Some {| tag := tag el; attrs := attr_update (attrs el) name v |}.
Proof.
  intros Hi. unfold set_attr. rewrite Hi. apply list_lookup_insert_eq.
  by eapply lookup_lt_Some.
Qed.

(** ** Rewriting of references *)

(** X2: for a reference through an attribute, [updateAssetReference] sets
    that attribute of the owning element to the local path with every
    backslash turned into a slash, and changes nothing else: the number of
    elements, the other elements, the tag and the other attributes of the
    owning element stay as they were. *)
Theorem updateAssetReference_attribute (asset : Asset) (localPath : string)
    (doc : Document) (el : Element) :
  isStyleAttribute asset = false →
  doc !! element asset = Some el →
  let doc' := updateAssetReference asset localPath doc in
  length doc' = length doc
  ∧ (∀ j, j ≠ element asset → doc' !! j = doc !! j)
  ∧ (∃ el', doc' !! element asset = Some el'
            ∧ tag el' = tag el
            ∧ attr_lookup (attrs el') (attr asset)
              = Some (Js.backslashes_to_slashes localPath)
            ∧ ∀ name, name ≠ attr asset →
                attr_lookup (attrs el') name = attr_lookup (attrs el) name)
  ∧ Js.includes_char (Js.backslashes_to_slashes localPath) "\"%char = false.
Proof.
  intros Hstyle Hel doc'. subst doc'. unfold updateAssetReference. rewrite Hstyle.
  split_and!.
  - apply set_attr_length.
  - intros j Hj. by apply set_attr_other.
  - eexists. split; [by apply set_attr_same |]. simpl. split; [done |].
    split.
    + rewrite attr_lookup_update. by rewrite decide_True.
    + intros name Hname. rewrite attr_lookup_update. by rewrite decide_False.
  - apply backslashes_to_slashes_none.
Qed.

Lemma updateAssetReference_attribute_witness :
  updateAssetReference
    {| element := 1%nat; attr := "src"; url := "/img/logo"; type := "image";
       isStyleAttribute := false; originalStyle := EmptyString |}
    "assets\image\logo.png"
    [ {| tag := "p"; attrs := [] |};
      {| tag := "img"; attrs := [("alt", "Logo"); ("src", "/img/logo")] |} ]
  = [ {| tag := "p"; attrs := [] |};
      {| tag := "img"; attrs := [("alt", "Logo"); ("src", "assets/image/logo.png")] |} ]
  ∧ length
      (updateAssetReference
         {| element := 1%nat; attr := "src"; url := "/img/logo"; type := "image";
            isStyleAttribute := false; originalStyle := EmptyString |}
         "assets\image\logo.png"
         [ {| tag := "p"; attrs := [] |};
           {| tag := "img"; attrs := [("alt", "Logo"); ("src", "/img/logo")] |} ])
    = 2%nat.
Proof.
  split; [reflexivity |].
  refine (proj1 (updateAssetReference_attribute _ _ _
                   {| tag := "img"; attrs := [("alt", "Logo"); ("src", "/img/logo")] |}
                   _ _)); reflexivity.
Defined.

(** X3: for a reference in an inline style, when the local path contains
    no dollar sign, the new style is the text before the match, the
    declaration [background-image: url('<path>')] and the text after the
    match; the other attributes and elements stay as they were. *)
Theorem updateAssetReference_style (asset : Asset) (localPath : string)
    (doc : Document) (el : Element) (m : Regex.found) :
  isStyleAttribute asset = true →
  Regex.bgImageMatch (originalStyle asset) = Some m →
  Js.includes_char localPath "$"%char = false →
  doc !! element asset = Some el →
  let doc' := updateAssetReference asset localPath doc in
  (∀ j, j ≠ element asset → doc' !! j = doc !! j)
  ∧ ∃ el', doc' !! element asset = Some el'
           ∧ tag el' = tag el
           ∧ attr_lookup (attrs el') "style"
             = Some (Regex.before m +:+ "background-image: url('"
                       +:+ Js.backslashes_to_slashes localPath +:+ "')"
                       +:+ Regex.after m)
           ∧ ∀ name, name ≠ "style" →
               attr_lookup (attrs el') name = attr_lookup (attrs el) name.
Proof.
  intros Hstyle Hm Hdollar Hel doc'. subst doc'. unfold updateAssetReference.
  rewrite Hstyle. split.
  - intros j Hj. by apply set_attr_other.
  - eexists. split; [by apply set_attr_same |]. simpl. split; [done |]. split.
    + rewrite attr_lookup_update, decide_True by done. f_equal.
      unfold Regex.replace_bgImage. rewrite Hm.
      rewrite expand_plain.
      * rewrite of_chars_chars. by rewrite !append_assoc.
      * rewrite of_chars_chars, !includes_char_app.
        rewrite backslashes_to_slashes_includes by done. by rewrite Hdollar.
    + intros name Hname. rewrite attr_lookup_update. by rewrite decide_False.
Qed.

Lemma updateAssetReference_style_witness :
  let asset := {| element := 0%nat; attr := "style"; url := "/bg.jpg"; type := "image";
                  isStyleAttribute := true;
                  originalStyle := "color: red; background-image:url(/bg.jpg); margin: 0" |} in
  let doc := [ {| tag := "div";
                  attrs := [("style", "color: red; background-image:url(/bg.jpg); margin: 0");
                            ("id", "hero")] |} ] in
  ∃ el', updateAssetReference asset "assets/image/bg.jpg" doc !! 0%nat = Some el'
         ∧ attr_lookup (attrs el') "style"
           = Some "color: red; background-image: url('assets/image/bg.jpg'); margin: 0"
         ∧ attr_lookup (attrs el') "id" = Some "hero".
Proof.
  intros asset doc.
  destruct (updateAssetReference_style asset "assets/image/bg.jpg" doc
              {| tag := "div";
                 attrs := [("style", "color: red; background-image:url(/bg.jpg); margin: 0");
                           ("id", "hero")] |}
              {| Regex.before := "color: red; ";
                 Regex.matched := "background-image:url(/bg.jpg)";
                 Regex.capture := "/bg.jpg";
                 Regex.after := "; margin: 0" |})
    as (_ & el' & Hel' & _ & Hs & Ho); [reflexivity | reflexivity | reflexivity | reflexivity |].
  exists el'. split_and!; [exact Hel' | exact Hs |].
  rewrite Ho; [reflexivity | discriminate].
Defined.

(** ** The scan of [processAssets] *)

Lemma select_spec sel (doc : Document) i el :
  (i, el) ∈ select sel doc → doc !! i = Some el ∧ sel el = true.
Proof.
  unfold select. rewrite list_elem_of_filter. intros [Hsel Hin]. simpl in Hsel.
  apply elem_of_lookup_imap in Hin as (j & y & [= -> ->] & Hj). done.
Qed.

Lemma truthy_nonempty s : Js.truthy s = true → s ≠ EmptyString.
Proof. by destruct s. Qed.

Lemma scan_attr_spec sel name ty doc a :
  a ∈ scan_attr sel name ty doc →
  ∃ el, doc !! element a = Some el ∧ sel el = true
        ∧ attr_lookup (attrs el) name = Some (url a)
        ∧ url a ≠ EmptyString ∧ attr a = name ∧ type a = ty
        ∧ isStyleAttribute a = false.
Proof.
  unfold scan_attr. rewrite list_elem_of_omap. intros ([i el] & Hin & Ha).
  apply select_spec in Hin as [Hi Hsel]. simpl in Ha.
  destruct (attr_lookup (attrs el) name) as [v|] eqn:Hv; [| done].
  destruct (Js.truthy v) eqn:Ht; [| done]. injection Ha as <-. simpl.
  exists el. split_and!; try done. by apply truthy_nonempty.
Qed.

(** What an entry of the array [assets] says about the document. *)
Lemma scan_assets_spec (doc : Document) (a : Asset) :
  a ∈ scan_assets doc → well_formed_asset doc a.
Proof.
  unfold scan_assets. rewrite !elem_of_app.
  intros [Ha | [Ha | [Ha | Ha]]].
  - apply scan_attr_spec in Ha as (el & Hi & Hsel & Hv & Hu & Hattr & Hty & Hst).
    exists el. split_and!; [done | done |]. left. rewrite Hattr. split_and!; try done.
    left. split_and!; try done. unfold sel_img_src in Hsel.
    apply andb_true_iff in Hsel as [Htag _]. by apply bool_decide_eq_true in Htag.
  - apply scan_attr_spec in Ha as (el & Hi & Hsel & Hv & Hu & Hattr & Hty & Hst).
    exists el. split_and!; [done | done |]. left. rewrite Hattr. split_and!; try done.
    right. left. split_and!; try done. unfold sel_stylesheet in Hsel.
    apply andb_true_iff in Hsel as [Hsel _]. apply andb_true_iff in Hsel as [Htag _].
    by apply bool_decide_eq_true in Htag.
  - apply scan_attr_spec in Ha as (el & Hi & Hsel & Hv & Hu & Hattr & Hty & Hst).
    exists el. split_and!; [done | done |]. left. rewrite Hattr. split_and!; try done.
    right. right. split_and!; try done. unfold sel_script_src in Hsel.
    apply andb_true_iff in Hsel as [Htag _]. by apply bool_decide_eq_true in Htag.
  - unfold scan_background in Ha. apply list_elem_of_omap in Ha as ([i el] & Hin & Ha).
    apply select_spec in Hin as [Hi Hsel]. simpl in Ha.
    unfold sel_background in Hsel.
    destruct (attr_lookup (attrs el) "style") as [s|] eqn:Hs; [| done]. simpl in Ha.
    destruct (Regex.bgImageMatch s) as [m|] eqn:Hm; [| done]. injection Ha as <-.
    exists el. simpl. split_and!; [done | |].
    + by destruct (bgImageMatch_spec s m Hm) as (_ & _ & ? & _).
    + right. split_and!; try done. by exists m.
Qed.

(** X4: every entry of the [assets] array refers to an element of the
    scanned document and has a non-empty address.  An attribute entry
    carries the value of [src] of an [img] (category [image]) or of a
    [script] (category [js]), or of [href] of a [link] (category [css]); a
    style entry has category [image] and carries the address captured by
    the pattern in the [style] of its element. *)
Theorem scan_assets_well_formed (doc : Document) (a : Asset) :
  a ∈ scan_assets doc → well_formed_asset doc a.
Proof. apply scan_assets_spec. Qed.

Lemma scan_assets_well_formed_witness :
  well_formed_asset
    [ {| tag := "p"; attrs := [] |};
      {| tag := "script"; attrs := [("src", "/js/app.js")] |} ]
    {| element := 1%nat; attr := "src"; url := "/js/app.js"; type := "js";
       isStyleAttribute := false; originalStyle := EmptyString |}.
Proof.
  apply scan_assets_well_formed. vm_compute. apply list_elem_of_In. left. reflexivity.
Defined.

(** ** What the pipeline leaves alone *)

Lemma same_shape_refl doc : same_shape doc doc.
Proof. split; [done |]. intros i el Hi. by exists el. Qed.

Lemma same_shape_trans doc1 doc2 doc3 :
  same_shape doc1 doc2 → same_shape doc2 doc3 → same_shape doc1 doc3.
Proof.
  intros [L1 H1] [L2 H2]. split; [congruence |].
  intros i el Hi. destruct (H1 i el Hi) as (el2 & Hi2 & Ht2 & Ha2).
  destruct (H2 i el2 Hi2) as (el3 & Hi3 & Ht3 & Ha3).
  exists el3. split_and!; [done | congruence |].
  intros name Hname. by rewrite Ha3, Ha2.
Qed.

Lemma set_attr_shape (doc : Document) i name v :
  rewritable name → same_shape doc (set_attr doc i name v).
Proof.
  intros Hname. split; [apply set_attr_length |].
  intros j el Hj. destruct (decide (j = i)) as [-> | Hne].
  - eexists. split; [by apply set_attr_same |]. simpl. split; [done |].
    intros name' Hname'. rewrite attr_lookup_update.
    rewrite decide_False; [done |]. by intros ->.
  - exists el. by rewrite set_attr_other.
Qed.

Lemma updateAssetReference_shape asset localPath doc :
  isStyleAttribute asset = true ∨ rewritable (attr asset) →
  same_shape doc (updateAssetReference asset localPath doc).
Proof.
  intros Hattr. unfold updateAssetReference.
  destruct (isStyleAttribute asset).
  - apply set_attr_shape. right. by right.
  - apply set_attr_shape. by destruct Hattr.
Qed.

Section Shape.

Context `{World}.
Variable this : Cloner.

(** The document after [downloadAsset] is the document before it or the
    one with the reference rewritten. *)
Lemma downloadAsset_doc asset pageUrl doc st :
  ∃ doc', (downloadAsset this asset pageUrl doc st).2 = Ok doc'
          ∧ (doc' = doc ∨ ∃ p, doc' = updateAssetReference asset p doc).
Proof.
  unfold downloadAsset, try_catch, downloadAsset_try.
  munfold. mcase; simpl; eauto.
Qed.

Lemma downloadAssets_loop_shape assets pageUrl : ∀ doc st,
  Forall (λ a, isStyleAttribute a = true ∨ rewritable (attr a)) assets →
  ∃ doc', (downloadAssets_loop this assets pageUrl doc st).2 = Ok doc'
          ∧ same_shape doc doc'.
Proof.
  induction assets as [|a assets IH]; intros doc st Hall; simpl.
  - exists doc. split; [done | apply same_shape_refl].
  - inversion Hall as [|? ? Ha Hrest]; subst. unfold bind.
    destruct (downloadAsset_doc a pageUrl doc st) as (doc1 & Hr & Hdoc1).
    destruct (downloadAsset this a pageUrl doc st) as [st1 r]. simpl in Hr. subst r.
    destruct (IH doc1 st1 Hrest) as (doc' & Hr' & Hshape).
    exists doc'. split; [done |].
    eapply same_shape_trans; [| exact Hshape].
    destruct Hdoc1 as [-> | [p ->]];
      [apply same_shape_refl | by apply updateAssetReference_shape].
Qed.

Lemma rewriteLinks_each_shape pageUrl els : ∀ doc,
  same_shape doc (rewriteLinks_each this pageUrl els doc).1.
Proof.
  induction els as [|i els IH]; intros doc; simpl; [apply same_shape_refl |].
  destruct (doc !! i ≫= _) as [h|]; [| apply IH].
  destruct (isInternalLink this h pageUrl); [| apply IH].
  destruct (URL_new h (Some pageUrl)) as [u|]; [| apply same_shape_refl].
  destruct (getFilename (href u)) as [lf|e]; [| apply same_shape_refl].
  eapply same_shape_trans; [| apply IH].
  apply set_attr_shape. right. by left.
Qed.

End Shape.

Lemma processAssets_shape `{World} (this : Cloner) (doc : Document)
    (pageUrl : string) (st : State) :
  ∃ doc', (processAssets this doc pageUrl st).2 = Ok doc' ∧ same_shape doc doc'.
Proof.
  unfold processAssets. apply downloadAssets_loop_shape.
  apply Forall_forall. intros a Ha.
  destruct (scan_assets_spec doc a Ha) as (el & _ & _ & [Hattr | Hstyle]).
  - right. destruct Hattr as (_ & _ & [(-> & _) | [(-> & _) | (-> & _)]]).
    + by left.
    + right. by left.
    + by left.
  - left. by destruct Hstyle.
Qed.

Lemma rewriteLinks_shape `{World} (this : Cloner) (doc : Document) (pageUrl : string) :
  same_shape doc (rewriteLinks this doc pageUrl).1.
Proof. unfold rewriteLinks. apply rewriteLinks_each_shape. Qed.

(** X5: the asset pipeline and the link rewriter keep the structure of the
    document: the same number of elements, the same tags, and the same
    value for every attribute other than [src], [href] and [style].
    [processAssets] always returns a document, whatever fails. *)
Theorem pipeline_preserves_structure `{World} (this : Cloner) (doc : Document)
    (pageUrl : string) (st : State) :
  (∃ doc', (processAssets this doc pageUrl st).2 = Ok doc' ∧ same_shape doc doc')
  ∧ same_shape doc (rewriteLinks this doc pageUrl).1.
Proof.
  split; [apply processAssets_shape | apply rewriteLinks_shape].
Qed.

(** ** One visit of a page, step by step *)

Section Visit.

Context `{World}.
Variable this : Cloner.

(** The course of [crawlPage_visit]: the request or the parser fails, and
    nothing but the request has happened; or the page is marked visited,
    the asset step runs, and then either a later step throws before the
    page file is written, or the page file is written and the result is
    that of [extractInternalLinks] on the rewritten document. *)
Lemma crawlPage_visit_cases u depth st :
  (∃ e, crawlPage_visit this u depth st = (visit_requested u depth st, Throw e)
        ∧ (http_get (clock st) u = None
           ∨ ∃ resp, http_get (clock st) u = Some resp
                     ∧ cheerio_load (data resp) = None))
  ∨ (∃ resp doc st2 doc1 st' r,
       http_get (clock st) u = Some resp
       ∧ cheerio_load (data resp) = Some doc
       ∧ visit_assets this u doc (visit_marked u depth st) = (st2, Ok doc1)
       ∧ crawlPage_visit this u depth st = (st', r)
       ∧ visitedUrls st' = visitedUrls st2
       ∧ downloadedAssets st' = downloadedAssets st2
       ∧ assetMap st' = assetMap st2
       ∧ console st' = console st2
       ∧ gets st' = gets st2
       ∧ ((files st' = files st2 ∧ ∃ e, r = Throw e)
          ∨ (∃ doc2 fname,
               rewriteLinks this doc1 u = (doc2, Ok tt)
               ∧ getFilename u = Ok fname
               ∧ files st'
                 = files st2 ++ [(Path.join [outputDir this; fname], cheerio_html doc2)]
               ∧ r = extractInternalLinks this (visitedUrls st2) doc2 u))).
Proof.
  unfold crawlPage_visit.
  unfold bind at 1. unfold console_log at 1.
  unfold bind at 1. unfold client_get, bind, tick, record_get. simpl.
  destruct (http_get (clock st) u) as [resp|] eqn:Hget; simpl.
  2:{ left. eexists. split; [reflexivity | by left]. }
  destruct (cheerio_load (data resp)) as [doc|] eqn:Hload; simpl.
  2:{ left. eexists. split; [reflexivity |]. right. by exists resp. }
  right.
  fold (visit_marked u depth st). fold (visit_assets this u doc).
  assert (∃ st2 doc1, visit_assets this u doc (visit_marked u depth st) = (st2, Ok doc1))
    as (st2 & doc1 & Hassets).
  { unfold visit_assets. destruct (downloadAssets this).
    - destruct (processAssets_spec this doc u (visit_marked u depth st))
        as (st2 & doc1 & -> & _). eauto.
    - unfold ret. eauto. }
  rewrite Hassets.
  destruct (rewriteLinks this doc1 u) as [doc2 [[]|e]] eqn:Hrw; munfold.
  2:{ exists resp, doc, st2, doc1. do 2 eexists. split_and!; try reflexivity; try done.
      left. eauto. }
  destruct (getFilename u) as [fname|e] eqn:Hname; simpl.
  2:{ exists resp, doc, st2, doc1. do 2 eexists. split_and!; try reflexivity; try done.
      left. eauto. }
  destruct (fs_ensureDir_ok _ _); simpl.
  2:{ exists resp, doc, st2, doc1. do 2 eexists. split_and!; try reflexivity; try done.
      left. eauto. }
  destruct (fs_writeFile_ok _ _); simpl.
  2:{ exists resp, doc, st2, doc1. do 2 eexists. split_and!; try reflexivity; try done.
      left. eauto. }
  exists resp, doc, st2, doc1.
  destruct (extractInternalLinks this (visitedUrls st2) doc2 u) as [links|e] eqn:Hlinks;
    simpl; do 2 eexists; (split_and!; try reflexivity; try done);
    right; exists doc2, fname; by rewrite Hlinks.
Qed.

End Visit.

(** ** Requests, files and console lines *)

Lemma announced_app l1 l2 : announced (l1 ++ l2) = announced l1 ++ announced l2.
Proof. unfold announced. apply omap_app. Qed.

Lemma asset_io_refl st : asset_io st st.
Proof.
  exists [], []. rewrite !app_nil_r. split_and!; done.
Qed.

Lemma asset_io_trans st1 st2 st3 :
  asset_io st1 st2 → asset_io st2 st3 → asset_io st1 st3.
Proof.
  intros (n1 & f1 & C1 & G1 & F1 & L1 & A1 & V1) (n2 & f2 & C2 & G2 & F2 & L2 & A2 & V2).
  exists (n1 ++ n2), (f1 ++ f2).
  rewrite C2, C1, G2, G1, F2, F1, V2, V1, announced_app, !length_app, !app_assoc.
  split_and!; try done; try lia. by apply Forall_app.
Qed.

Section Io.

Context `{World}.
Variable this : Cloner.

Lemma downloadAsset_io asset pageUrl doc st :
  asset_io st (downloadAsset this asset pageUrl doc st).1.
Proof.
  unfold downloadAsset, try_catch, downloadAsset_try.
  munfold. mcase; simpl.
  all: first
    [ by (exists [], []; rewrite ?app_nil_r; split_and!; simpl; try done;
          repeat constructor)
    | by (eexists [_], []; rewrite <- ?app_assoc; split_and!; try done;
          simpl; rewrite ?app_nil_r; try done; try lia; repeat constructor)
    | by (eexists [_; _], []; rewrite <- ?app_assoc; split_and!; try done;
          simpl; rewrite ?app_nil_r; try done; try lia; repeat constructor)
    | by (eexists [_], [_]; rewrite <- ?app_assoc; split_and!; try done;
          simpl; rewrite ?app_nil_r; try done; try lia; repeat constructor) ].
Qed.

Lemma downloadAssets_loop_io assets pageUrl : ∀ doc st,
  asset_io st (downloadAssets_loop this assets pageUrl doc st).1.
Proof.
  induction assets as [|a assets IH]; intros doc st; simpl.
  - apply asset_io_refl.
  - unfold bind. pose proof (downloadAsset_io a pageUrl doc st) as Hs.
    destruct (downloadAsset_returns this a pageUrl doc st) as [d Hd].
    destruct (downloadAsset this a pageUrl doc st) as [st1 r]. simpl in *. subst r.
    eapply asset_io_trans; [exact Hs | apply IH].
Qed.

Lemma processAssets_io doc pageUrl st :
  asset_io st (processAssets this doc pageUrl st).1.
Proof. apply downloadAssets_loop_io. Qed.

End Io.

(** ** The links that are followed *)

Lemma dedup_NoDup l : ∀ seen,
  NoDup (dedup seen l) ∧ ∀ x, x ∈ dedup seen l → x ∉ seen.
Proof.
  induction l as [|y l IH]; intros seen; simpl.
  - split; [constructor | by intros x ?%elem_of_nil].
  - case_bool_decide as Hy.
    + apply IH.
    + destruct (IH (y :: seen)) as [Hnd Hout]. split.
      * constructor; [| done]. intros Hin. apply (Hout y Hin). by left.
      * intros x [-> | Hx]%elem_of_cons; [done |].
        intros Hseen. apply (Hout x Hx). by right.
Qed.

Section FollowedLinks.

Context `{World}.
Variable this : Cloner.

Lemma isInternalLink_true h base :
  isInternalLink this h base = true →
  ∃ u, URL_new h (Some base) = Some u ∧ hostname u = hostname (baseUrl this).
Proof.
  unfold isInternalLink. destruct (_ || _); [done |].
  destruct (URL_new h (Some base)) as [u|]; [| done].
  intros Hu%bool_decide_eq_true. by exists u.
Qed.

Lemma extractInternalLinks_each_source visited pageUrl els : ∀ links,
  extractInternalLinks_each this visited pageUrl els = Ok links →
  ∀ l, l ∈ links →
    ∃ i el h u, (i, el) ∈ els
                ∧ attr_lookup (attrs el) "href" = Some h
                ∧ isInternalLink this h pageUrl = true
                ∧ URL_new h (Some pageUrl) = Some u
                ∧ href u = l.
Proof.
  induction els as [|[i el] els IH]; intros links; simpl.
  - intros [= <-] l Hl. by apply elem_of_nil in Hl.
  - assert (∀ links', extractInternalLinks_each this visited pageUrl els = Ok links' →
              ∀ l, l ∈ links' →
                ∃ i0 el0 h u, (i0, el0) ∈ (i, el) :: els
                  ∧ attr_lookup (attrs el0) "href" = Some h
                  ∧ isInternalLink this h pageUrl = true
                  ∧ URL_new h (Some pageUrl) = Some u ∧ href u = l) as IH'.
    { intros links' Hl' l Hl. destruct (IH links' Hl' l Hl) as (i0 & el0 & h & u & Hin & ?).
      exists i0, el0, h, u. split; [by right | done]. }
    destruct (attr_lookup (attrs el) "href") as [h|] eqn:Hh; [| apply IH'].
    destruct (Js.truthy h && isInternalLink this h pageUrl) eqn:Hint; [| apply IH'].
    apply andb_true_iff in Hint as [_ Hint].
    destruct (URL_new h (Some pageUrl)) as [u|] eqn:Hu; [| done].
    destruct (extractInternalLinks_each this visited pageUrl els) as [links'|e]; [| done].
    intros [= <-] l Hl.
    assert (l = href u ∨ l ∈ links') as [-> | Hl'].
    { case_bool_decide; [by right |]. by apply elem_of_cons in Hl. }
    + exists i, el, h, u. split; [by left | done].
    + by apply (IH' links').
Qed.

End FollowedLinks.

(** Where the links returned by [extractInternalLinks] come from. *)
Lemma extractInternalLinks_source `{World} (this : Cloner) (visited : gset string)
    (doc : Document) (pageUrl : string) (links : list string) :
  extractInternalLinks this visited doc pageUrl = Ok links →
  NoDup links
  ∧ ∀ l, l ∈ links →
      ∃ i el h u, doc !! i = Some el ∧ tag el = "a"
                  ∧ attr_lookup (attrs el) "href" = Some h
                  ∧ URL_new h (Some pageUrl) = Some u
                  ∧ href u = l
                  ∧ hostname u = hostname (baseUrl this).
Proof.
  unfold extractInternalLinks.
  destruct (extractInternalLinks_each this visited pageUrl _) as [links'|e] eqn:He; [| done].
  intros [= <-]. split; [apply dedup_NoDup |].
  intros l Hl%dedup_subset.
  destruct (extractInternalLinks_each_source this _ _ _ _ He l Hl)
    as (i & el & h & u & Hin & Hh & Hint & Hu & Hl').
  apply select_spec in Hin as [Hi Hsel].
  exists i, el, h, u. split_and!; try done.
  - unfold sel_a_href in Hsel. apply andb_true_iff in Hsel as [Htag _].
    by apply bool_decide_eq_true in Htag.
  - destruct (isInternalLink_true this h pageUrl Hint) as (u' & Hu' & Hhost). congruence.
Qed.

(** X6: the list returned by [extractInternalLinks] has no duplicates, and
    each of its members is the resolved address of the [href] of an anchor
    of the document, on the host of the root. *)
Theorem extractInternalLinks_sound `{World} (this : Cloner) (visited : gset string)
    (doc : Document) (pageUrl : string) (links : list string) :
  extractInternalLinks this visited doc pageUrl = Ok links →
  NoDup links
  ∧ ∀ l, l ∈ links →
      ∃ i el h u, doc !! i = Some el ∧ tag el = "a"
                  ∧ attr_lookup (attrs el) "href" = Some h
                  ∧ URL_new h (Some pageUrl) = Some u
                  ∧ href u = l
                  ∧ hostname u = hostname (baseUrl this).
Proof. apply extractInternalLinks_source. Qed.

Lemma extractInternalLinks_sound_witness :
  ∃ links,
    @extractInternalLinks CrawlScenario.W LinkScenario.this ∅
      [CrawlScenario.anchor "a.html"; CrawlScenario.anchor "https://other.example/x";
       CrawlScenario.anchor "/a.html"; CrawlScenario.anchor "#top"]
      "http://site.test/" = Ok links
    ∧ links = ["http://site.test/a.html"]
    ∧ NoDup links.
Proof.
  eexists. split; [reflexivity |]. split; [reflexivity |].
  refine (proj1 (@extractInternalLinks_sound CrawlScenario.W LinkScenario.this ∅
                   [CrawlScenario.anchor "a.html";
                    CrawlScenario.anchor "https://other.example/x";
                    CrawlScenario.anchor "/a.html"; CrawlScenario.anchor "#top"]
                   "http://site.test/" _ _)).
  reflexivity.
Defined.

(** ** The trace of a crawl *)

Section Trace.

Context `{World}.
Variable this : Cloner.

Lemma trace_refl P st : trace this P st st.
Proof.
  exists [], []. rewrite !app_nil_r. split_and!; try done.
  - constructor.
  - intros v Hv. by left.
Qed.

Lemma trace_trans P st1 st2 st3 :
  trace this P st1 st2 → trace this P st2 st3 → trace this P st1 st3.
Proof.
  intros (n1 & f1 & C1 & G1 & F1 & L1 & P1 & V1 & A1)
         (n2 & f2 & C2 & G2 & F2 & L2 & P2 & V2 & A2).
  exists (n1 ++ n2), (f1 ++ f2).
  rewrite C2, C1, G2, G1, F2, F1, announced_app, !length_app, !app_assoc.
  split_and!; try done; try lia.
  - by apply Forall_app.
  - intros v Hv. destruct (V2 v Hv) as [Hv2 | [d Hd]].
    + destruct (V1 v Hv2) as [? | [d Hd]]; [by left |].
      right. exists d. apply elem_of_app. by left.
    + right. exists d. apply elem_of_app. by right.
  - intros Hoff. destruct (A1 Hoff) as (M1 & D1 & N1), (A2 Hoff) as (M2 & D2 & N2).
    split_and!; [congruence | congruence | by apply Forall_app].
Qed.

Lemma trace_weaken (P Q : string → Prop) st st' :
  (∀ v, P v → Q v) → trace this P st st' → trace this Q st st'.
Proof.
  intros HPQ (n & f & C & G & F & L & Pn & V & A).
  exists n, f. split_and!; try done.
  eapply Forall_impl; [exact Pn |]. intros [] ?; simpl in *; auto.
Qed.

Lemma trace_log P st e :
  ¬ asset_log e → announced [e] = [] →
  trace this P st (console_log e st).1.
Proof.
  intros He Ha. exists [e], []. rewrite Ha, !app_nil_r. simpl.
  split_and!; try done.
  - constructor; [| constructor]. by destruct e.
  - intros v Hv. by left.
  - intros _. split_and!; try done. by constructor.
Qed.

Lemma asset_io_marked u depth st st2 :
  asset_io (visit_marked u depth st) st2 →
  ∃ new f,
    console st2 = console st ++ LogCrawling depth u :: new
    ∧ gets st2 = gets st ++ u :: announced new
    ∧ files st2 = files st ++ f
    ∧ (length f ≤ length (announced new))%nat
    ∧ Forall asset_log new
    ∧ visitedUrls st2 = {[u]} ∪ visitedUrls st.
Proof.
  intros (new & f & C & G & F & L & A & V). simpl in *.
  exists new, f. rewrite <- !app_assoc in *. by split_and!.
Qed.

Lemma asset_lines_page_lines P new : Forall asset_log new → page_lines P new.
Proof.
  intros Hn. eapply Forall_impl; [exact Hn |]. by intros [].
Qed.

(** One visit: its trace mentions no page but [u], and the links it
    returns are on the host of the root. *)
Lemma crawlPage_visit_trace u depth st st1 r :
  crawlPage_visit this u depth st = (st1, r) →
  trace this (λ v, v = u) st st1
  ∧ ∀ links, r = Ok links → ∀ l, l ∈ links → on_root_host this l.
Proof.
  intros Hvisit.
  destruct (crawlPage_visit_cases this u depth st)
    as [(e & He & _) | (resp & doc & st2 & doc1 & st' & r' & _ & _ & Hassets & Hv
                        & Vis & Dl & Am & Con & Gets & Hrest)].
  { rewrite He in Hvisit. injection Hvisit as <- <-. split; [| done].
    exists [LogCrawling depth u], []. simpl. rewrite !app_nil_r.
    split; [| split; [| split; [| split; [| split; [| split]]]]]; try done.
    - simpl. lia.
    - by repeat constructor.
    - intros v Hv. by left.
    - intros _. split_and!; try done. constructor; [| constructor]. by intros []. }
  rewrite Hv in Hvisit. injection Hvisit as <- <-.
  assert (∃ new f,
    console st2 = console st ++ LogCrawling depth u :: new
    ∧ gets st2 = gets st ++ u :: announced new
    ∧ files st2 = files st ++ f
    ∧ (length f ≤ length (announced new))%nat
    ∧ Forall asset_log new
    ∧ visitedUrls st2 = {[u]} ∪ visitedUrls st
    ∧ (downloadAssets this = false →
       assetMap st2 = assetMap st ∧ downloadedAssets st2 = downloadedAssets st
       ∧ new = []))
    as (new & f & C2 & G2 & F2 & L2 & A2 & V2 & Off2).
  { unfold visit_assets in Hassets. destruct (downloadAssets this) eqn:Hdl.
    - pose proof (processAssets_io this doc u (visit_marked u depth st)) as Hio.
      rewrite Hassets in Hio. simpl in Hio.
      destruct (asset_io_marked _ _ _ _ Hio) as (new & f & ? & ? & ? & ? & ? & ?).
      exists new, f. by split_and!.
    - injection Hassets as <- _. exists [], []. simpl. rewrite !app_nil_r.
      by split_and!. }
  split.
  - assert (∃ g, files st' = files st2 ++ g ∧ (length g ≤ 1)%nat) as (g & Fg & Lg).
    { destruct Hrest as [[-> _] | (doc2 & fname & _ & _ & -> & _)].
      - exists []. rewrite app_nil_r. split; [done | simpl; lia].
      - eexists. split; [reflexivity | simpl; lia]. }
    exists (LogCrawling depth u :: new), (f ++ g).
    rewrite Con, Gets, Fg, F2, C2, G2, Vis, V2, Am, Dl, length_app, !app_assoc.
    simpl. split; [| split; [| split; [| split; [| split; [| split]]]]]; try done.
    + lia.
    + constructor; [done |]. by apply asset_lines_page_lines.
    + intros v [->%elem_of_singleton | Hv']%elem_of_union; [| by left].
      right. exists depth. by left.
    + intros Hoff. destruct (Off2 Hoff) as (? & ? & ->). split_and!; try done.
      constructor; [| constructor]. by intros [].
  - intros links ->.
    destruct Hrest as [[_ [e He]] | (doc2 & fname & _ & _ & _ & Hlinks)]; [done |].
    intros l Hl. symmetry in Hlinks.
    destruct (extractInternalLinks_source this _ _ _ _ Hlinks) as [_ Hsrc].
    destruct (Hsrc l Hl) as (i & el & h & u' & _ & _ & _ & Hu & Hhref & Hhost).
    by exists h, u, u'.
Qed.

Lemma crawl_links_spec_in (R : State → State → Prop) crawl links :
  (∀ s, R s s) →
  (∀ s1 s2 s3, R s1 s2 → R s2 s3 → R s1 s3) →
  (∀ l s s' r, l ∈ links → crawl l s = Some (s', r) → r = Ok tt ∧ R s s') →
  ∀ s s' r, crawl_links crawl links s = Some (s', r) → r = Ok tt ∧ R s s'.
Proof.
  intros Hrefl Htrans. induction links as [|l links IH]; intros Hc s s' r; simpl.
  - intros [= <- <-]. by split.
  - destruct (crawl l s) as [[s1 r1]|] eqn:Hl; [| done].
    destruct (Hc l s s1 r1 ltac:(by left) Hl) as [-> HR1].
    intros Hrest. destruct (IH (λ l0 s0 s0' r0 Hin, Hc l0 s0 s0' r0 ltac:(by right))
                              s1 s' r Hrest) as [-> HR2].
    split; [done | by eapply Htrans].
Qed.

(** A call of [crawlPage] for [u]: every page it announces is [u] or on
    the host of the root. *)
Lemma crawlPage_trace fuel : ∀ u depth st st' r,
  crawlPage this fuel u depth st = Some (st', r) →
  trace this (λ v, v = u ∨ on_root_host this v) st st'.
Proof.
  induction fuel as [|fuel IH]; intros u depth st st' r; simpl; [done |].
  destruct (_ || _).
  { intros [= <- <-]. apply trace_refl. }
  destruct (crawlPage_visit this u depth st) as [st1 [links|e]] eqn:Hvisit.
  - destruct (crawlPage_visit_trace u depth st st1 _ Hvisit) as [Htr Hhost].
    specialize (Hhost links eq_refl).
    destruct (crawl_links _ links st1) as [[st2 r2]|] eqn:Hlinks; [| done].
    destruct (crawl_links_spec_in (trace this (λ v, v = u ∨ on_root_host this v))
                _ links (trace_refl _) (trace_trans _)
                (λ l s s' r0 Hin Hc,
                   conj (proj1 (crawlPage_spec this fuel l (depth + 1) s s' r0 Hc))
                        (trace_weaken _ _ s s'
                           (λ v Hv, match Hv with
                                    | or_introl E => or_intror (eq_ind_r _ (Hhost l Hin) E)
                                    | or_intror Hh => or_intror Hh
                                    end)
                           (IH l (depth + 1) s s' r0 Hc)))
                st1 st2 r2 Hlinks) as [-> Hrest].
    simpl. intros [= <- <-].
    eapply trace_trans; [| exact Hrest].
    eapply trace_weaken; [| exact Htr]. intros v ->. by left.
  - destruct (crawlPage_visit_trace u depth st st1 _ Hvisit) as [Htr _].
    simpl. intros [= <- <-].
    eapply trace_trans.
    + eapply trace_weaken; [| exact Htr]. intros v ->. by left.
    + apply (trace_log _ st1 (LogCrawlError u e)); [by intros [] | done].
Qed.

End Trace.

(** ** What a crawl requests, writes and marks *)

(** X7: requests and announcements of a crawl correspond: the addresses
    requested during a call of [crawlPage] are, in order, the addresses of
    the page and asset lines it printed, and it wrote at most one file for
    each request. *)
Theorem crawl_requests_are_announced `{World} (this : Cloner) (fuel : nat) (u : string)
    (depth : Z) (st st' : State) (r : outcome unit) :
  crawlPage this fuel u depth st = Some (st', r) →
  ∃ new written,
    console st' = console st ++ new
    ∧ gets st' = gets st ++ announced new
    ∧ files st' = files st ++ written
    ∧ (length written ≤ length (announced new))%nat.
Proof.
  intros Hrun.
  destruct (crawlPage_trace this fuel u depth st st' r Hrun)
    as (new & f & C & G & F & L & _).
  by exists new, f.
Qed.

Lemma crawl_requests_are_announced_witness :
  ∃ st', @crawlPage CrawlScenario.W CrawlRun.this 5 CrawlRun.root 0 initial_state
         = Some (st', Ok tt)
         ∧ ∃ new written,
             console st' = console initial_state ++ new
             ∧ gets st' = gets initial_state ++ announced new
             ∧ files st' = files initial_state ++ written
             ∧ (length written ≤ length (announced new))%nat.
Proof.
  destruct (@crawlPage_returns CrawlScenario.W CrawlRun.this 5 CrawlRun.root 0 initial_state)
    as [st' Hrun]; [simpl; lia |].
  exists st'. split; [exact Hrun |].
  exact (@crawl_requests_are_announced CrawlScenario.W CrawlRun.this 5 CrawlRun.root 0
           initial_state st' (Ok tt) Hrun).
Defined.

(** X8: a crawl stays on the host of the root: every page announced
    during a call of [crawlPage] for [u] is [u] itself or the address of
    a resolved reference whose host name is that of the root. *)
Theorem crawl_stays_on_root_host `{World} (this : Cloner) (fuel : nat) (u : string)
    (depth : Z) (st st' : State) (r : outcome unit) :
  crawlPage this fuel u depth st = Some (st', r) →
  ∃ new,
    console st' = console st ++ new
    ∧ ∀ d v, LogCrawling d v ∈ new →
        v = u
        ∨ ∃ h base w, URL_new h (Some base) = Some w ∧ href w = v
                      ∧ hostname w = hostname (baseUrl this).
Proof.
  intros Hrun.
  destruct (crawlPage_trace this fuel u depth st st' r Hrun)
    as (new & f & C & _ & _ & _ & P & _).
  exists new. split; [done |]. intros d v Hin.
  unfold page_lines in P. rewrite Forall_forall in P. exact (P _ Hin).
Qed.

Lemma crawl_stays_on_root_host_witness :
  ∃ st', @crawlPage CrawlScenario.W CrawlRun.this 5 CrawlRun.root 0 initial_state
         = Some (st', Ok tt)
         ∧ ∃ new,
             console st' = console initial_state ++ new
             ∧ ∀ d v, LogCrawling d v ∈ new →
                 v = CrawlRun.root
                 ∨ ∃ h base w, @URL_new CrawlScenario.W h (Some base) = Some w ∧ href w = v
                               ∧ hostname w = hostname (baseUrl CrawlRun.this).
Proof.
  destruct (@crawlPage_returns CrawlScenario.W CrawlRun.this 5 CrawlRun.root 0 initial_state)
    as [st' Hrun]; [simpl; lia |].
  exists st'. split; [exact Hrun |].
  exact (@crawl_stays_on_root_host CrawlScenario.W CrawlRun.this 5 CrawlRun.root 0
           initial_state st' (Ok tt) Hrun).
Defined.

(** X9: a page is marked visited only after it has been requested: every
    member of [visitedUrls] after a call of [crawlPage] was a member
    before or is among the addresses requested during the call. *)
Theorem visited_pages_were_requested `{World} (this : Cloner) (fuel : nat) (u : string)
    (depth : Z) (st st' : State) (r : outcome unit) :
  crawlPage this fuel u depth st = Some (st', r) →
  ∃ requested,
    gets st' = gets st ++ requested
    ∧ ∀ v, v ∈ visitedUrls st' → v ∈ visitedUrls st ∨ v ∈ requested.
Proof.
  intros Hrun.
  destruct (crawlPage_trace this fuel u depth st st' r Hrun)
    as (new & f & _ & G & _ & _ & _ & V & _).
  exists (announced new). split; [done |]. intros v Hv.
  destruct (V v Hv) as [? | [d Hd]]; [by left | right].
  unfold announced. apply list_elem_of_omap. by exists (LogCrawling d v).
Qed.

Lemma visited_pages_were_requested_witness :
  ∃ st', @crawlPage CrawlScenario.W CrawlRun.this 5 CrawlRun.root 0 initial_state
         = Some (st', Ok tt)
         ∧ ∃ requested,
             gets st' = gets initial_state ++ requested
             ∧ ∀ v, v ∈ visitedUrls st' → v ∈ visitedUrls initial_state ∨ v ∈ requested.
Proof.
  destruct (@crawlPage_returns CrawlScenario.W CrawlRun.this 5 CrawlRun.root 0 initial_state)
    as [st' Hrun]; [simpl; lia |].
  exists st'. split; [exact Hrun |].
  exact (@visited_pages_were_requested CrawlScenario.W CrawlRun.this 5 CrawlRun.root 0
           initial_state st' (Ok tt) Hrun).
Defined.

(** X10: with [downloadAssets] false a crawl leaves the asset store alone,
    prints no line about an asset, and requests pages only: every request
    of the call is announced by a page line. *)
Theorem crawl_without_assets `{World} (this : Cloner) (fuel : nat) (u : string)
    (depth : Z) (st st' : State) (r : outcome unit) :
  downloadAssets this = false →
  crawlPage this fuel u depth st = Some (st', r) →
  assetMap st' = assetMap st
  ∧ downloadedAssets st' = downloadedAssets st
  ∧ ∃ new requested,
      console st' = console st ++ new
      ∧ (∀ e, e ∈ new → ¬ asset_log e)
      ∧ gets st' = gets st ++ requested
      ∧ ∀ v, v ∈ requested → ∃ d, LogCrawling d v ∈ new.
Proof.
  intros Hoff Hrun.
  destruct (crawlPage_trace this fuel u depth st st' r Hrun)
    as (new & f & C & G & _ & _ & _ & _ & A).
  destruct (A Hoff) as (Am & Dl & Hnew). rewrite Forall_forall in Hnew.
  split_and!; try done.
  exists new, (announced new). split_and!; try done.
  intros v Hv. unfold announced in Hv.
  apply list_elem_of_omap in Hv as (e & He & Hsome).
  destruct e as [d w|w| |]; simplify_eq.
  - by exists d.
  - by destruct (Hnew _ He).
Qed.

Lemma crawl_without_assets_witness :
  ∃ st', @crawlPage CrawlScenario.W CrawlRun.pages_only 5 CrawlRun.root 0 initial_state
         = Some (st', Ok tt)
         ∧ assetMap st' = assetMap initial_state
         ∧ downloadedAssets st' = downloadedAssets initial_state
         ∧ ∃ new requested,
             console st' = console initial_state ++ new
             ∧ (∀ e, e ∈ new → ¬ asset_log e)
             ∧ gets st' = gets initial_state ++ requested
             ∧ ∀ v, v ∈ requested → ∃ d, LogCrawling d v ∈ new.
Proof.
  destruct (@crawlPage_returns CrawlScenario.W CrawlRun.pages_only 5 CrawlRun.root 0
              initial_state) as [st' Hrun]; [simpl; lia |].
  exists st'. split; [exact Hrun |].
  exact (@crawl_without_assets CrawlScenario.W CrawlRun.pages_only 5 CrawlRun.root 0
           initial_state st' (Ok tt) eq_refl Hrun).
Defined.

(** ** Saved pages *)

Section SavedPages.

Context `{World}.
Variable this : Cloner.

Lemma visit_assets_shape u doc st :
  ∃ st2 doc1, visit_assets this u doc st = (st2, Ok doc1)
              ∧ same_shape doc doc1
              ∧ visitedUrls st2 = visitedUrls st.
Proof.
  unfold visit_assets. destruct (downloadAssets this).
  - destruct (processAssets_shape this doc u st) as (doc1 & Hr & Hshape).
    destruct (processAssets_spec this doc u st) as (st2 & doc1' & Hrun & [Hv _ _]).
    rewrite Hrun in Hr. simpl in Hr. injection Hr as ->.
    by exists st2, doc1.
  - exists st, doc. split_and!; [done | apply same_shape_refl | done].
Qed.

(** A page that was received and parsed is marked visited by the visit,
    whatever fails afterwards. *)
Lemma crawlPage_visit_marks u depth st resp doc :
  http_get (clock st) u = Some resp → cheerio_load (data resp) = Some doc →
  visitedUrls (crawlPage_visit this u depth st).1 = {[u]} ∪ visitedUrls st.
Proof.
  intros Hget Hload.
  destruct (crawlPage_visit_cases this u depth st)
    as [(e & _ & [Hnone | (resp' & Hget' & Hnone)])
       | (resp' & doc' & st2 & doc1 & st' & r & _ & _ & Hassets & Hv & Vis & _)].
  - congruence.
  - congruence.
  - rewrite Hv. simpl. rewrite Vis. destruct (visit_assets_shape u doc' (visit_marked u depth st))
      as (st2' & doc1' & Hrun & _ & Hv2).
    rewrite Hrun in Hassets. by injection Hassets as <- _.
Qed.

End SavedPages.

(** X11: a page that was received and parsed is marked visited even when
    a later step of its visit fails (rewriting a link, creating the
    directory, writing the file): after the call it is a member of
    [visitedUrls], and a later call of [crawlPage] for it does nothing. *)
Theorem parsed_page_stays_visited `{World} (this : Cloner) (fuel fuel' : nat) (u : string)
    (depth depth' : Z) (st st' : State) (r : outcome unit) (resp : Response)
    (doc : Document) :
  depth ≤ maxDepth this →
  u ∉ visitedUrls st →
  http_get (clock st) u = Some resp →
  cheerio_load (data resp) = Some doc →
  crawlPage this (S fuel) u depth st = Some (st', r) →
  u ∈ visitedUrls st'
  ∧ crawlPage this (S fuel') u depth' st' = Some (st', Ok tt).
Proof.
  intros Hd Hu Hget Hload Hrun.
  assert (u ∈ visitedUrls st') as Hin.
  { simpl in Hrun.
    rewrite (Z.gtb_ltb depth (maxDepth this)) in Hrun.
    replace (maxDepth this <? depth) with false in Hrun by (symmetry; apply Z.ltb_ge; lia).
    rewrite bool_decide_eq_false_2 in Hrun by done. simpl in Hrun.
    pose proof (crawlPage_visit_marks this u depth st resp doc Hget Hload) as Hmark.
    destruct (crawlPage_visit this u depth st) as [st1 [links|e]]; simpl in Hmark.
    - destruct (crawl_links _ links st1) as [[st2 r2]|] eqn:Hlinks; [| done].
      destruct (crawl_links_spec (crawl_step this (depth + 1)) _
                  (crawl_step_refl _ _) (crawl_step_trans _ _)
                  (λ l s s' r0, crawlPage_spec this fuel l (depth + 1) s s' r0)
                  links st1 st2 r2 Hlinks) as [-> [Hsub _ _]].
      simpl in Hrun. injection Hrun as <- _.
      apply Hsub. rewrite Hmark. apply elem_of_union_l. by apply elem_of_singleton.
    - simpl in Hrun. injection Hrun as <- _. simpl. rewrite Hmark.
      apply elem_of_union_l. by apply elem_of_singleton. }
  split; [done |]. simpl.
  rewrite (bool_decide_eq_true_2 _ Hin). by rewrite orb_true_r.
Qed.

Lemma parsed_page_stays_visited_witness :
  ∃ st', @crawlPage CrawlScenario.W CrawlRun.this 5 CrawlRun.root 0 initial_state
         = Some (st', Ok tt)
         ∧ CrawlRun.root ∈ visitedUrls st'
         ∧ @crawlPage CrawlScenario.W CrawlRun.this 1 CrawlRun.root 1 st' = Some (st', Ok tt).
Proof.
  destruct (@crawlPage_returns CrawlScenario.W CrawlRun.this 5 CrawlRun.root 0 initial_state)
    as [st' Hrun]; [simpl; lia |].
  exists st'. split; [exact Hrun |].
  refine (@parsed_page_stays_visited CrawlScenario.W CrawlRun.this 4 0 CrawlRun.root 0 1
            initial_state st' (Ok tt) (Scenario.html "INDEX")
            [CrawlScenario.stylesheet; CrawlScenario.stylesheet;
             CrawlScenario.anchor "index.html"; CrawlScenario.anchor "a.html"]
            _ _ _ _ Hrun).
  - simpl. lia.
  - simpl. apply not_elem_of_empty.
  - reflexivity.
  - reflexivity.
Defined.

(** X12: when a visit returns links to follow, the page has been saved: the
    last file written is [outputDir]/[getFilename(url)], its contents are
    the serialisation of a document with the elements of the parsed page
    (tags and all attributes but [src], [href] and [style] unchanged), and
    the links are those [extractInternalLinks] finds in that rewritten
    document. *)
Theorem visit_saves_page_before_links `{World} (this : Cloner) (u : string) (depth : Z)
    (st st1 : State) (links : list string) :
  crawlPage_visit this u depth st = (st1, Ok links) →
  ∃ resp doc doc2 fname earlier,
    http_get (clock st) u = Some resp
    ∧ cheerio_load (data resp) = Some doc
    ∧ same_shape doc doc2
    ∧ getFilename u = Ok fname
    ∧ files st1 = files st ++ earlier
                  ++ [(Path.join [outputDir this; fname], cheerio_html doc2)]
    ∧ extractInternalLinks this (visitedUrls st1) doc2 u = Ok links.
Proof.
  intros Hvisit.
  destruct (crawlPage_visit_cases this u depth st)
    as [(e & He & _)
       | (resp & doc & st2 & doc1 & st' & r & Hget & Hload & Hassets & Hv & Vis & _ & _
          & _ & _ & Hrest)].
  { rewrite He in Hvisit. by injection Hvisit. }
  rewrite Hv in Hvisit. injection Hvisit as -> ->.
  destruct Hrest as [[_ [e He]] | (doc2 & fname & Hrw & Hname & Hfiles & Hlinks)]; [done |].
  destruct (visit_assets_shape this u doc (visit_marked u depth st))
    as (st2' & doc1' & Hrun & Hshape & _).
  rewrite Hrun in Hassets. injection Hassets as -> ->.
  assert (∃ earlier, files st2 = files st ++ earlier) as [earlier Hearlier].
  { unfold visit_assets in Hrun. destruct (downloadAssets this).
    - pose proof (processAssets_io this doc u (visit_marked u depth st)) as Hio.
      rewrite Hrun in Hio. destruct Hio as (new & f & _ & _ & F & _). simpl in F. eauto.
    - injection Hrun as <-. exists []. by rewrite app_nil_r. }
  exists resp, doc, doc2, fname, earlier. split_and!; try done.
  - eapply same_shape_trans; [exact Hshape |].
    pose proof (rewriteLinks_shape this doc1 u) as Hs. by rewrite Hrw in Hs.
  - by rewrite Hfiles, Hearlier, app_assoc.
  - by rewrite Vis.
Qed.

Lemma visit_saves_page_before_links_witness :
  ∃ st1 links,
    @crawlPage_visit LinkScenario.W LinkScenario.this "http://site.test/" 0 initial_state
    = (st1, Ok links)
    ∧ ∃ resp doc doc2 fname earlier,
        @http_get LinkScenario.W (clock initial_state) "http://site.test/" = Some resp
        ∧ @cheerio_load LinkScenario.W (data resp) = Some doc
        ∧ same_shape doc doc2
        ∧ @getFilename LinkScenario.W "http://site.test/" = Ok fname
        ∧ files st1 = files initial_state ++ earlier
                      ++ [(Path.join [outputDir LinkScenario.this; fname],
                           @cheerio_html LinkScenario.W doc2)]
        ∧ @extractInternalLinks LinkScenario.W LinkScenario.this (visitedUrls st1) doc2
            "http://site.test/" = Ok links.
Proof.
  destruct (@crawlPage_visit LinkScenario.W LinkScenario.this "http://site.test/" 0
              initial_state) as [st1 [links|e]] eqn:Hvisit.
  - exists st1, links. split; [reflexivity |].
    exact (@visit_saves_page_before_links LinkScenario.W LinkScenario.this
             "http://site.test/" 0 initial_state st1 links Hvisit).
  - vm_compute in Hvisit. discriminate Hvisit.
Defined.

(** ** The depth a clone reaches *)

(** X13: for every configuration, a clone announces no page deeper than the
    effective depth: the configured depth when it is given and not zero,
    and 2 otherwise. *)
Theorem clone_depth_bound `{World} (o : Options) (this : Cloner) (fuel : nat)
    (st' : State) (r : outcome unit) :
  new_WebsiteCloner o = Some this →
  clone this fuel initial_state = Some (st', r) →
  ∀ d v, LogCrawling d v ∈ console st' →
    0 ≤ d ≤ match opt_maxDepth o with
            | Some n => if n =? 0 then 2 else n
            | None => 2
            end.
Proof.
  intros Hnew Hrun d v Hin.
  assert (maxDepth this = match opt_maxDepth o with
                          | Some n => if n =? 0 then 2 else n
                          | None => 2
                          end) as <-.
  { unfold new_WebsiteCloner in Hnew.
    destruct (URL_new (opt_url o) None); simpl in Hnew; [| done].
    by injection Hnew as <-. }
  unfold clone, fs_ensureDir in Hrun. revert Hrun. munfold.
  destruct (fs_ensureDir_ok _ _).
  - intros Hrun.
    destruct (crawlPage_depth_bound this _ _ _ _ _ _ Hrun) as (new & Hc & Hb).
    rewrite Hc in Hin. simpl in Hin. by eapply Hb.
  - intros [= <- _]. simpl in Hin. by apply elem_of_nil in Hin.
Qed.

Lemma clone_depth_bound_witness :
  ∃ this st',
    @new_WebsiteCloner CrawlScenario.W (CrawlScenario.options (Some 1)) = Some this
    ∧ @clone CrawlScenario.W this 3 initial_state = Some (st', Ok tt)
    ∧ ∀ d v, LogCrawling d v ∈ console st' → 0 ≤ d ≤ 1.
Proof.
  destruct (@new_WebsiteCloner CrawlScenario.W (CrawlScenario.options (Some 1)))
    as [this|] eqn:Hnew; [| vm_compute in Hnew; discriminate Hnew].
  destruct (@clone CrawlScenario.W this 3 initial_state) as [[st' r]|] eqn:Hrun.
  - exists this, st'.
    pose proof (@clone_depth_bound CrawlScenario.W (CrawlScenario.options (Some 1))
                  this 3 st' r Hnew Hrun) as Hbound.
    split; [reflexivity |]. split; [| exact Hbound].
    injection Hnew as <-. revert Hrun. vm_compute. intros [= <- <-]. reflexivity.
  - injection Hnew as <-. vm_compute in Hrun. discriminate Hrun.
Defined.

(** X14: a negative depth makes [clone] fetch nothing: the crawl returns
    at once, and the clone ends with no request made, no file written and
    no page visited. *)
Theorem clone_negative_depth `{World} (o : Options) (this : Cloner) (n : Z) (fuel : nat)
    (st st' : State) (r : outcome unit) :
  opt_maxDepth o = Some n → n < 0 →
  new_WebsiteCloner o = Some this →
  clone this (S fuel) st = Some (st', r) →
  gets st' = gets st ∧ files st' = files st ∧ visitedUrls st' = visitedUrls st.
Proof.
  intros Hn Hneg Hnew.
  pose proof (new_WebsiteCloner_maxDepth o this n Hnew Hn ltac:(lia)) as Hdepth.
  unfold clone, fs_ensureDir. munfold.
  destruct (fs_ensureDir_ok _ _).
  - simpl. rewrite Hdepth.
    replace (0 >? n) with true by (symmetry; apply Z.gtb_lt; lia). simpl.
    by intros [= <- _].
  - by intros [= <- _].
Qed.

Lemma clone_negative_depth_witness :
  ∃ this st',
    @new_WebsiteCloner CrawlScenario.W (CrawlScenario.options (Some (-1))) = Some this
    ∧ @clone CrawlScenario.W this 1 initial_state = Some (st', Ok tt)
    ∧ gets st' = [] ∧ files st' = [] ∧ visitedUrls st' = ∅.
Proof.
  destruct (@new_WebsiteCloner CrawlScenario.W (CrawlScenario.options (Some (-1))))
    as [this|] eqn:Hnew; [| vm_compute in Hnew; discriminate Hnew].
  destruct (@clone CrawlScenario.W this 1 initial_state) as [[st' r]|] eqn:Hrun.
  - exists this, st'.
    pose proof (@clone_negative_depth CrawlScenario.W (CrawlScenario.options (Some (-1)))
                  this (-1) 0 initial_state st' r eq_refl ltac:(lia) Hnew Hrun) as Hnone.
    split; [reflexivity |]. split; [| exact Hnone].
    injection Hnew as <-. revert Hrun. vm_compute. intros [= <- <-]. reflexivity.
  - injection Hnew as <-. vm_compute in Hrun. discriminate Hrun.
Defined.

(** ** Internal links are rewritten *)

Lemma select_fst_NoDup sel (doc : Document) : NoDup ((select sel doc).*1).
Proof.
  unfold select. apply NoDup_fmap_fst.
  - intros i el1 el2 [H1 _]%select_spec [H2 _]%select_spec. congruence.
  - apply NoDup_filter. apply NoDup_alt. intros i j [k el] Hi Hj.
    rewrite list_lookup_imap in Hi, Hj.
    apply fmap_Some in Hi as (x & _ & Hx). apply fmap_Some in Hj as (y & _ & Hy).
    congruence.
Qed.

Lemma select_complete sel (doc : Document) i el :
  doc !! i = Some el → sel el = true → (i, el) ∈ select sel doc.
Proof.
  intros Hi Hsel. unfold select. apply list_elem_of_filter. split; [done |].
  apply elem_of_lookup_imap. by exists i, el.
Qed.

Section RewrittenLinks.

Context `{World}.
Variable this : Cloner.

Lemma rewriteLinks_each_outside pageUrl els : ∀ (doc : Document) i,
  i ∉ els → (rewriteLinks_each this pageUrl els doc).1 !! i = doc !! i.
Proof.
  induction els as [|j els IH]; intros doc i Hi; simpl; [done |].
  apply not_elem_of_cons in Hi as [Hij Hi].
  destruct (doc !! j ≫= _) as [h|]; [| by apply IH].
  destruct (isInternalLink this h pageUrl); [| by apply IH].
  destruct (URL_new h (Some pageUrl)) as [u|]; [| done].
  destruct (getFilename (href u)) as [lf|e]; [| done].
  rewrite IH by done. by apply set_attr_other.
Qed.

Lemma rewriteLinks_each_rewrites pageUrl els : ∀ (doc doc' : Document),
  NoDup els →
  rewriteLinks_each this pageUrl els doc = (doc', Ok tt) →
  ∀ i el h, i ∈ els → doc !! i = Some el →
    attr_lookup (attrs el) "href" = Some h →
    isInternalLink this h pageUrl = true →
    ∃ u fname,
      URL_new h (Some pageUrl) = Some u
      ∧ getFilename (href u) = Ok fname
      ∧ doc' !! i = Some {| tag := tag el; attrs := attr_update (attrs el) "href" fname |}.
Proof.
  induction els as [|j els IH]; intros doc doc' Hnd Hrun i el h Hi Hel Hh Hint.
  { by apply elem_of_nil in Hi. }
  apply NoDup_cons in Hnd as [Hj Hnd]. simpl in Hrun.
  destruct (decide (i = j)) as [-> | Hij].
  - rewrite Hel in Hrun. simpl in Hrun. rewrite Hh, Hint in Hrun.
    destruct (URL_new h (Some pageUrl)) as [u|] eqn:Hu; [| done].
    destruct (getFilename (href u)) as [fname|e] eqn:Hname; [| done].
    exists u, fname. split_and!; try done.
    pose proof (rewriteLinks_each_outside pageUrl els
                  (set_attr doc j "href" fname) j Hj) as Hout.
    rewrite Hrun in Hout. simpl in Hout.
    etrans; [exact Hout | by apply set_attr_same].
  - apply elem_of_cons in Hi as [? | Hi]; [done |].
    destruct (doc !! j ≫= _) as [h'|]; [| by eapply IH].
    destruct (isInternalLink this h' pageUrl); [| by eapply IH].
    destruct (URL_new h' (Some pageUrl)) as [u'|]; [| done].
    destruct (getFilename (href u')) as [lf|e]; [| done].
    eapply IH; try done. by rewrite set_attr_other.
Qed.

End RewrittenLinks.

(** X15: when [rewriteLinks] completes, every anchor whose [href] is
    internal carries the local file name of the page it points to:
    [getFilename] of the resolved address.  Its tag and its other
    attributes are unchanged. *)
Theorem rewriteLinks_rewrites_internal `{World} (this : Cloner) (doc doc' : Document)
    (pageUrl : string) (i : nat) (el : Element) (h : string) :
  rewriteLinks this doc pageUrl = (doc', Ok tt) →
  doc !! i = Some el →
  tag el = "a" →
  attr_lookup (attrs el) "href" = Some h →
  isInternalLink this h pageUrl = true →
  ∃ u fname el',
    URL_new h (Some pageUrl) = Some u
    ∧ getFilename (href u) = Ok fname
    ∧ doc' !! i = Some el'
    ∧ tag el' = "a"
    ∧ attr_lookup (attrs el') "href" = Some fname
    ∧ ∀ name, name ≠ "href" → attr_lookup (attrs el') name = attr_lookup (attrs el) name.
Proof.
  intros Hrun Hel Htag Hh Hint. unfold rewriteLinks in Hrun.
  assert (i ∈ (select sel_a_href doc).*1) as Hi.
  { apply list_elem_of_fmap. exists (i, el). split; [done |].
    apply select_complete; [done |]. unfold sel_a_href, has_attr.
    rewrite Hh. apply andb_true_iff. split; apply bool_decide_eq_true; [done | eauto]. }
  destruct (rewriteLinks_each_rewrites this pageUrl _ doc doc'
              (select_fst_NoDup _ _) Hrun i el h Hi Hel Hh Hint)
    as (u & fname & Hu & Hname & Hel').
  eexists u, fname, _. split_and!; try done; simpl.
  - rewrite attr_lookup_update. by rewrite decide_True.
  - intros name Hne. rewrite attr_lookup_update. by rewrite decide_False.
Qed.

Lemma rewriteLinks_rewrites_internal_witness :
  let doc := [ {| tag := "a"; attrs := [("class", "nav"); ("href", "/about")] |} ] in
  ∃ doc' el',
    @rewriteLinks LinkScenario.W LinkScenario.this doc "http://site.test/" = (doc', Ok tt)
    ∧ doc' !! 0%nat = Some el'
    ∧ attr_lookup (attrs el') "href" = Some "/about.html"
    ∧ attr_lookup (attrs el') "class" = Some "nav".
Proof.
  intros doc.
  destruct (@rewriteLinks LinkScenario.W LinkScenario.this doc "http://site.test/")
    as [doc' [[]|e]] eqn:Hrun; [| vm_compute in Hrun; discriminate Hrun].
  destruct (@rewriteLinks_rewrites_internal LinkScenario.W LinkScenario.this doc doc'
              "http://site.test/" 0%nat
              {| tag := "a"; attrs := [("class", "nav"); ("href", "/about")] |}
              "/about" Hrun eq_refl eq_refl eq_refl eq_refl)
    as (u & fname & el' & Hu & Hname & Hel' & _ & Hhref & Hother).
  exists doc', el'. split_and!; [done | done | |].
  - rewrite Hhref. f_equal.
    assert (@URL_new LinkScenario.W "/about" (Some "http://site.test/")
            = Some {| href := "http://site.test/about"; hostname := "site.test";
                      pathname := "/about" |}) as Hu' by reflexivity.
    rewrite Hu' in Hu. injection Hu as <-.
    assert (@getFilename LinkScenario.W "http://site.test/about" = Ok "/about.html")
      as Hname' by reflexivity.
    simpl in Hname. rewrite Hname' in Hname. by injection Hname as <-.
  - rewrite Hother; [reflexivity | discriminate].
Defined.

(** ** Assets that share a file name *)

Lemma asset_filename_basename p1 p2 n1 n2 :
  Path.basename p1 = Path.basename p2 → Path.basename p1 ≠ EmptyString →
  asset_filename p1 n1 = asset_filename p2 n2.
Proof.
  intros Heq Hne. unfold asset_filename. rewrite <- Heq.
  by destruct (Path.basename p1).
Qed.

Lemma asset_localFilePath_basename this ty p1 p2 ct n1 n2 :
  Path.basename p1 = Path.basename p2 → Path.basename p1 ≠ EmptyString →
  asset_localFilePath this ty p1 ct n1 = asset_localFilePath this ty p2 ct n2.
Proof.
  intros Heq Hne. unfold asset_localFilePath.
  by rewrite (asset_filename_basename p1 p2 n1 n2 Heq Hne).
Qed.

(** X16: two assets of one category whose addresses differ but end in the
    same non-empty base name, served with the same content type, are
    written to the same file: after both downloads the store records one
    path for the two addresses, and the second file was written over the
    first. *)
Theorem assets_with_one_name_share_a_file `{World} (this : Cloner) (a1 a2 : Asset)
    (page : string) (doc1 doc2 : Document) (st : State) (abs1 abs2 u1 u2 : URL)
    (p1 p2 : string) :
  store_ok st →
  URL_new (url a1) (Some page) = Some abs1 →
  URL_new (url a2) (Some page) = Some abs2 →
  href abs1 ≠ href abs2 →
  href abs1 ∉ downloadedAssets st →
  href abs2 ∉ downloadedAssets st →
  type a1 = type a2 →
  URL_new (href abs1) None = Some u1 →
  URL_new (href abs2) None = Some u2 →
  Path.basename (pathname u1) = Path.basename (pathname u2) →
  Path.basename (pathname u1) ≠ EmptyString →
  let st1 := (downloadAsset this a1 page doc1 st).1 in
  let st2 := (downloadAsset this a2 page doc2 st1).1 in
  content_type <$> http_get (clock st) (href abs1)
  = content_type <$> http_get (clock st1) (href abs2) →
  assetMap st2 !! href abs1 = Some p1 →
  assetMap st2 !! href abs2 = Some p2 →
  p1 = p2 ∧ ∃ f d1 d2, files st2 = files st ++ [(f, d1); (f, d2)].
Proof.
  intros Hok Habs1 Habs2 Hne Hout1 Hout2 Hty Hu1 Hu2 Hbase Hnonempty st1 st2 Hct Hp1 Hp2.
  assert (assetMap st !! href abs1 = None) as Hnone1.
  { apply not_elem_of_dom. by rewrite Hok. }
  assert (assetMap st !! href abs2 = None) as Hnone2.
  { apply not_elem_of_dom. by rewrite Hok. }
  pose proof (downloadAsset_step this a1 page doc1 st) as [_ _ Hstore1].
  destruct (Hstore1 Hok) as [Hok1 _]. fold st1 in Hok1.
  pose proof (downloadAsset_miss this a1 page doc1 st abs1 Habs1 Hout1) as Hm1.
  cbv zeta in Hm1. fold st1 in Hm1.
  assert (∀ m : gmap string string, m !! href abs1 = None →
            (assetMap st2 = m ∨ ∃ p, assetMap st2 = <[href abs2 := p]> m) → False)
    as Hcontra.
  { intros m Hm [Heq | [p Heq]]; rewrite Heq in Hp1.
    - congruence.
    - rewrite lookup_insert_ne in Hp1 by done. congruence. }
  destruct Hm1 as [(r1 & u1' & Hr1 & Hu1' & Hm1 & Hd1 & Hf1 & _) | (Hm1 & Hd1 & _)].
  2:{ exfalso. apply (Hcontra (assetMap st1)); [by rewrite Hm1 |].
      assert (href abs2 ∉ downloadedAssets st1) as Hout2' by by rewrite Hd1.
      destruct (downloadAsset_miss this a2 page doc2 st1 abs2 Habs2 Hout2')
        as [(r2 & u2' & _ & _ & Hm2 & _) | (Hm2 & _)]; fold st2 in Hm2; eauto. }
  assert (href abs2 ∉ downloadedAssets st1) as Hout2'.
  { rewrite Hd1. intros [Heq%elem_of_singleton | Hin]%elem_of_union; congruence. }
  pose proof (downloadAsset_miss this a2 page doc2 st1 abs2 Habs2 Hout2') as Hm2.
  cbv zeta in Hm2. fold st2 in Hm2.
  destruct Hm2 as [(r2 & u2' & Hr2 & Hu2' & Hm2 & _ & Hf2 & _) | (Hm2 & _)].
  2:{ exfalso. rewrite Hm2, Hm1 in Hp2.
      rewrite lookup_insert_ne in Hp2 by done. congruence. }
  assert (u1' = u1) as -> by congruence. assert (u2' = u2) as -> by congruence.
  rewrite Hr1, Hr2 in Hct. simpl in Hct. injection Hct as Hct.
  rewrite Hm2 in Hp1, Hp2.
  rewrite lookup_insert_eq in Hp2. rewrite lookup_insert_ne in Hp1 by congruence.
  rewrite Hm1, lookup_insert_eq in Hp1.
  injection Hp1 as <-. injection Hp2 as <-.
  pose proof (asset_localFilePath_basename this (type a1) (pathname u1) (pathname u2)
                (content_type r1) (Date_now (S (clock st))) (Date_now (S (clock st1)))
                Hbase Hnonempty) as Hpath.
  split.
  - unfold asset_relativePath. by rewrite <- Hty, <- Hct, Hpath.
  - eexists _, (data r1), (data r2). rewrite Hf2, Hf1, <- app_assoc. simpl.
    by rewrite <- Hty, <- Hct, Hpath.
Qed.

Lemma assets_with_one_name_share_a_file_witness :
  let st1 := (@downloadAsset CollisionScenario.W LinkScenario.this
                (CollisionScenario.asset 0 "/a/logo.png") "http://site.test/"
                CollisionScenario.page initial_state).1 in
  let st2 := (@downloadAsset CollisionScenario.W LinkScenario.this
                (CollisionScenario.asset 1 "/b/logo.png") "http://site.test/"
                CollisionScenario.page st1).1 in
  assetMap st2 !! "http://site.test/a/logo.png" = Some "assets/image/logo.png"
  ∧ assetMap st2 !! "http://site.test/b/logo.png" = Some "assets/image/logo.png"
  ∧ ∃ f d1 d2, files st2 = files initial_state ++ [(f, d1); (f, d2)].
Proof.
  intros st1 st2.
  assert (assetMap st2 !! "http://site.test/a/logo.png" = Some "assets/image/logo.png")
    as Hp1 by reflexivity.
  assert (assetMap st2 !! "http://site.test/b/logo.png" = Some "assets/image/logo.png")
    as Hp2 by reflexivity.
  split; [exact Hp1 |]. split; [exact Hp2 |].
  refine (proj2 (@assets_with_one_name_share_a_file CollisionScenario.W LinkScenario.this
                   (CollisionScenario.asset 0 "/a/logo.png")
                   (CollisionScenario.asset 1 "/b/logo.png")
                   "http://site.test/" CollisionScenario.page CollisionScenario.page
                   initial_state
                   (CollisionScenario.address "/a/logo.png")
                   (CollisionScenario.address "/b/logo.png")
                   (CollisionScenario.address "/a/logo.png")
                   (CollisionScenario.address "/b/logo.png")
                   "assets/image/logo.png" "assets/image/logo.png"
                   _ _ _ _ _ _ _ _ _ _ _ _ Hp1 Hp2)).
  - unfold store_ok. simpl. apply dom_empty_L.
  - reflexivity.
  - reflexivity.
  - vm_compute. discriminate.
  - simpl. apply not_elem_of_empty.
  - simpl. apply not_elem_of_empty.
  - reflexivity.
  - reflexivity.
  - reflexivity.
  - reflexivity.
  - vm_compute. discriminate.
  - reflexivity.
Defined.

(** ** The file name of a page is never empty *)

Lemma extname_single (c : ascii) : Path.extname (String c EmptyString) = EmptyString.
Proof.
  destruct c as [[] [] [] [] [] [] [] []]; reflexivity.
Qed.

(** X17: [getFilename] never returns the empty string: the file of a page
    is never the output directory itself. *)
Theorem getFilename_nonempty `{World} (u fname : string) :
  getFilename u = Ok fname → fname ≠ EmptyString.
Proof.
  unfold getFilename. destruct (URL_new u None) as [urlObj|]; [| done].
  intros [= <-]. unfold getFilename_of_pathname.
  destruct (pathname urlObj) as [|c [|c' p]] eqn:Hp.
  - by rewrite bool_decide_eq_true_2 by by right.
  - case_bool_decide; [done |].
    destruct (Js.endsWith _ _); [done |].
    rewrite extname_single. done.
  - case_bool_decide; [done |].
    destruct (Js.endsWith _ _); [done |].
    destruct (negb _); done.
Qed.

Lemma getFilename_nonempty_witness :
  @getFilename LinkScenario.W "http://site.test/x.y" = Ok "x.y"
  ∧ "x.y" ≠ EmptyString.
Proof.
  split; [reflexivity |].
  exact (@getFilename_nonempty LinkScenario.W "http://site.test/x.y" "x.y" eq_refl).
Defined.

(** ** Nothing that the scans look for is missed *)

Lemma strip_prefix_complete p r : Regex.strip_prefix p (p ++ r) = Some r.
Proof.
  induction p as [|a p IH]; simpl; [done |]. by rewrite Ascii.eqb_refl.
Qed.

Lemma includes_go_head sub rest : Regex.includes_go sub (sub ++ rest) = true.
Proof.
  destruct (sub ++ rest) eqn:Hs; simpl; rewrite <- Hs, strip_prefix_complete; done.
Qed.

Lemma includes_go_tail sub c s :
  Regex.includes_go sub s = true → Regex.includes_go sub (c :: s) = true.
Proof.
  intros Hs. simpl. by destruct (Regex.strip_prefix sub (c :: s)).
Qed.

Lemma search_includes s : ∀ acc m,
  Regex.search acc s = Some m →
  Regex.includes_go (Js.chars "background-image") s = true.
Proof.
  assert (∀ s cap rest, Regex.match_here s = Some (cap, rest) →
            Regex.includes_go (Js.chars "background-image") s = true) as Hhere.
  { intros s0 cap rest. unfold Regex.match_here.
    destruct (Regex.strip_prefix (Js.chars "background-image:") s0) as [s1|] eqn:H1;
      [| done].
    intros _. apply strip_prefix_app in H1. rewrite H1.
    change (Js.chars "background-image:")
      with (Js.chars "background-image" ++ [":"%char]).
    rewrite <- app_assoc. apply includes_go_head. }
  induction s as [|c s IH]; intros acc m.
  - simpl. destruct (Regex.match_here []) as [[cap rest]|] eqn:Hm; [| done].
    intros _. by apply (Hhere [] cap rest).
  - cbn [Regex.search].
    destruct (Regex.match_here (c :: s)) as [[cap rest]|] eqn:Hm.
    + intros _. by apply (Hhere _ cap rest).
    + intros Hs. apply includes_go_tail. by apply (IH (c :: acc) m).
Qed.

Lemma scan_attr_complete sel name ty (doc : Document) i el v :
  doc !! i = Some el → sel el = true →
  attr_lookup (attrs el) name = Some v → v ≠ EmptyString →
  {| element := i; attr := name; url := v; type := ty;
     isStyleAttribute := false; originalStyle := EmptyString |}
  ∈ scan_attr sel name ty doc.
Proof.
  intros Hi Hsel Hv Hne. unfold scan_attr. apply list_elem_of_omap.
  exists (i, el). split; [by apply select_complete |]. simpl. rewrite Hv.
  by destruct v.
Qed.

(** X18: the scans of [processAssets] miss nothing they look for: an image
    with a non-empty [src], a style sheet link with a non-empty [href], a
    script with a non-empty [src], and an element whose style matches the
    pattern each have their entry in the array [assets]. *)
Theorem scan_assets_complete (doc : Document) (i : nat) (el : Element) (v : string) :
  doc !! i = Some el →
  (tag el = "img" → attr_lookup (attrs el) "src" = Some v → v ≠ EmptyString →
   {| element := i; attr := "src"; url := v; type := "image";
      isStyleAttribute := false; originalStyle := EmptyString |} ∈ scan_assets doc)
  ∧ (tag el = "link" → attr_lookup (attrs el) "rel" = Some "stylesheet" →
     attr_lookup (attrs el) "href" = Some v → v ≠ EmptyString →
     {| element := i; attr := "href"; url := v; type := "css";
        isStyleAttribute := false; originalStyle := EmptyString |} ∈ scan_assets doc)
  ∧ (tag el = "script" → attr_lookup (attrs el) "src" = Some v → v ≠ EmptyString →
     {| element := i; attr := "src"; url := v; type := "js";
        isStyleAttribute := false; originalStyle := EmptyString |} ∈ scan_assets doc)
  ∧ (∀ m, attr_lookup (attrs el) "style" = Some v → Regex.bgImageMatch v = Some m →
     {| element := i; attr := "style"; url := Regex.capture m; type := "image";
        isStyleAttribute := true; originalStyle := v |} ∈ scan_assets doc).
Proof.
  intros Hi. unfold scan_assets. split_and!.
  - intros Htag Hv Hne. apply elem_of_app. left.
    apply (scan_attr_complete _ _ _ _ _ el); try done.
    unfold sel_img_src, has_attr. rewrite Hv, Htag. done.
  - intros Htag Hrel Hv Hne. apply elem_of_app. right. apply elem_of_app. left.
    apply (scan_attr_complete _ _ _ _ _ el); try done.
    unfold sel_stylesheet, has_attr. rewrite Hv, Htag, Hrel. done.
  - intros Htag Hv Hne. do 2 (apply elem_of_app; right). apply elem_of_app. left.
    apply (scan_attr_complete _ _ _ _ _ el); try done.
    unfold sel_script_src, has_attr. rewrite Hv, Htag. done.
  - intros m Hv Hm. do 3 (apply elem_of_app; right).
    unfold scan_background. apply list_elem_of_omap.
    exists (i, el). split.
    + apply select_complete; [done |]. unfold sel_background. rewrite Hv.
      apply orb_true_iff. left. unfold Regex.includes.
      by apply (search_includes _ [] m).
    + simpl. rewrite Hv. simpl. by rewrite Hm.
Qed.

Lemma scan_assets_complete_witness :
  let doc := [ {| tag := "p"; attrs := [] |};
               {| tag := "link"; attrs := [("rel", "stylesheet"); ("href", "/s.css")] |} ] in
  {| element := 1%nat; attr := "href"; url := "/s.css"; type := "css";
     isStyleAttribute := false; originalStyle := EmptyString |} ∈ scan_assets doc.
Proof.
  intros doc.
  refine (proj1 (proj2 (scan_assets_complete doc 1%nat
                   {| tag := "link"; attrs := [("rel", "stylesheet"); ("href", "/s.css")] |}
                   "/s.css" eq_refl)) eq_refl eq_refl eq_refl _).
  discriminate.
Defined.
